(** * Image-Stitching-Tool: the layout and compositing of [generatePreview]

    A shallow embedding of the [App] component of src/App.tsx:
    [generatePreview] and [loadFabricImage] with the properties of the
    stitched preview, then the handlers of the item list
    ([handleImageUpload], [copyImage], [updateCaption], [removeImage]),
    [downloadImage], the cleanup on unmount, and what the page shows of
    the preview.

    Numbers.  A JavaScript number is modelled as an exact rational ([Q]),
    compared with [==]; the rounding of IEEE doubles is not represented,
    and [0.15] is the rational 15/100.  A division goes through [js_div],
    which has no result when the divisor is zero (JavaScript would give
    an infinity or NaN there, values the model does not have).

    Effects.  The component state, the two refs, the canvases behind
    them, the console and the pending timers are one record, [State];
    [generatePreview] is a function on it. *)

From Stdlib Require Import QArith Qminmax Qfield Lqa ZArith Lia.
From Stdlib Require Import List String Bool.
Import ListNotations.

Local Open Scope Q_scope.

(** ** JavaScript values *)

Module JS.

(** [x || d] on a number that may be missing: [undefined], [NaN] and
    [0] are falsy and give [d]. *)
Definition or_default (x : option Q) (d : Q) : Q :=
  match x with
  | Some q => if Qeq_bool q 0 then d else q
  | None => d
  end.

(** Truthiness of a string: only the empty string is falsy. *)
Definition truthy (s : string) : bool :=
  match s with
  | EmptyString => false
  | String _ _ => true
  end.

(** [a / b], defined when the result is a finite number. *)
Definition js_div (a b : Q) : option Q :=
  if Qeq_bool b 0 then None else Some (a / b).

(** [Math.max(a, b)] and [Math.min(a, b)] on finite numbers. *)
Definition Math_max (a b : Q) : Q := if Qle_bool a b then b else a.
Definition Math_min (a b : Q) : Q := if Qle_bool a b then a else b.

(** An [Error] object: its name and message, and the error it wraps
    when it has a cause. *)
Inductive JsError : Type :=
| PlainError (name message : string)
| WrappedError (name message : string) (cause : JsError).

Definition error_name (e : JsError) : string :=
  match e with
  | PlainError n _ => n
  | WrappedError n _ _ => n
  end.


(** How the promise of an [async] function settles. *)
Inductive Completion : Type :=
| Resolved
| Rejected (e : JsError).

End JS.
Import JS.

(** ** Computations that may throw

    [Done a]: the value [a]; [Throw e]: an exception or a rejected
    [await]; [NonFinite]: a division by zero was reached. *)

Inductive M (A : Type) : Type :=
| Done (a : A)
| Throw (e : JsError)
| NonFinite.

Arguments Done {A} a.
Arguments Throw {A} e.
Arguments NonFinite {A}.

Definition bind {A B : Type} (m : M A) (f : A -> M B) : M B :=
  match m with
  | Done a => f a
  | Throw e => Throw e
  | NonFinite => NonFinite
  end.

Definition div (a b : Q) : M Q :=
  match js_div a b with
  | Some q => Done q
  | None => NonFinite
  end.

Definition await {A : Type} (p : JsError + A) : M A :=
  match p with
  | inl e => Throw e
  | inr a => Done a
  end.

Notation "x <- m ;; k" := (bind m (fun x => k))
  (at level 61, m at next level, right associativity).

(** ** Fabric objects *)

Module Fabric.

(** A decoded image: where it came from and its pixel size, either of
    which the code allows to be missing or zero. *)
Record FabricImage : Type := mkFabricImage {
  src : string;
  width : option Q;
  height : option Q
}.

Record Rect : Type := mkRect {
  rect_left : Q;
  rect_top : Q;
  rect_width : Q;
  rect_height : Q;
  absolutePositioned : bool
}.

Record Shadow : Type := mkShadow {
  shadow_color : string;
  blur : Q;
  offsetX : Q;
  offsetY : Q
}.

(** An image placed on the canvas by [img.set({...})]. *)
Record ImageObject : Type := mkImageObject {
  element : FabricImage;
  img_left : Q;
  img_top : Q;
  scaleX : Q;
  scaleY : Q;
  img_selectable : bool;
  clipPath : option Rect
}.

(** A [fabric.FabricText]. *)
Record TextObject : Type := mkTextObject {
  text : string;
  text_left : Q;
  text_top : Q;
  fontSize : Q;
  fontFamily : string;
  fontWeight : string;
  fill : string;
  textAlign : string;
  originX : string;
  text_selectable : bool;
  opacity : Q;
  shadow : Shadow
}.

Inductive FabricObject : Type :=
| ImageObj (o : ImageObject)
| TextObj (t : TextObject).

(** A [fabric.Canvas]: its size and background, the objects added so
    far in drawing order, what the last [renderAll] painted, and
    whether [dispose] was called. *)
Record Canvas : Type := mkCanvas {
  canvas_width : Q;
  canvas_height : Q;
  backgroundColor : string;
  objects : list FabricObject;
  painted : list FabricObject;
  disposed : bool
}.

Definition add (o : list FabricObject) (c : Canvas) : Canvas :=
  mkCanvas (canvas_width c) (canvas_height c) (backgroundColor c)
           (objects c ++ o) (painted c) (disposed c).

Definition renderAll (c : Canvas) : Canvas :=
  mkCanvas (canvas_width c) (canvas_height c) (backgroundColor c)
           (objects c) (objects c) (disposed c).

Definition dispose (c : Canvas) : Canvas :=
  mkCanvas (canvas_width c) (canvas_height c) (backgroundColor c)
           (objects c) (painted c) true.


Fixpoint texts_of (l : list FabricObject) : list TextObject :=
  match l with
  | [] => []
  | ImageObj _ :: r => texts_of r
  | TextObj t :: r => t :: texts_of r
  end.

End Fabric.
Import Fabric.

(** ** The component: items, environment and state *)

Record Caption : Type := mkCaption {
  zh : string;
  jp : string
}.

(** [ImageItem], without the opaque [file]. *)
Record ImageItem : Type := mkImageItem {
  id : string;
  url : string;
  caption : Caption;
  originalId : option string
}.

(** What the component cannot decide itself: how [FabricImage.fromURL]
    settles for a source (it may resolve with no image), and how
    [img.clone()] settles. *)
Record Env : Type := mkEnv {
  fromURL : string -> JsError + option FabricImage;
  clone : FabricImage -> JsError + FabricImage
}.

(** The hidden [<canvas>] element behind [canvasRef]. *)
Record CanvasElement : Type := mkCanvasElement {
  el_width : Q;
  el_height : Q
}.

(** The callback given to [setTimeout]: it reads the canvas with handle
    [h] back and publishes the result. *)
Inductive TimerCallback : Type :=
| ReadbackPreview (h : nat).

Record Timer : Type := mkTimer {
  delay : Z;
  callback : TimerCallback
}.

(** A preview URL: the empty string, or the PNG of a canvas. *)
Inductive DataUrl : Type :=
| EmptyUrl
| PngDataUrl (w h : Q) (background : string) (objs : list FabricObject).

Definition toDataURL (c : Canvas) : DataUrl :=
  PngDataUrl (canvas_width c) (canvas_height c) (backgroundColor c) (objects c).

(** The state the component keeps between calls.  [heap] holds every
    [fabric.Canvas] made so far; [fabricCanvasRef] and the timer
    callbacks refer to a canvas by its position in it. *)
Record State : Type := mkState {
  images : list ImageItem;
  previewUrl : DataUrl;
  isGenerating : bool;
  canvasRef : option CanvasElement;
  fabricCanvasRef : option nat;
  heap : list Canvas;
  console : list JsError;
  timers : list Timer
}.

Definition setIsGenerating (b : bool) (st : State) : State :=
  mkState (images st) (previewUrl st) b (canvasRef st)
          (fabricCanvasRef st) (heap st) (console st) (timers st).

Definition setPreviewUrl (u : DataUrl) (st : State) : State :=
  mkState (images st) u (isGenerating st) (canvasRef st)
          (fabricCanvasRef st) (heap st) (console st) (timers st).

Definition set_canvas_element (c : CanvasElement) (st : State) : State :=
  mkState (images st) (previewUrl st) (isGenerating st) (Some c)
          (fabricCanvasRef st) (heap st) (console st) (timers st).

Definition set_heap (h : list Canvas) (st : State) : State :=
  mkState (images st) (previewUrl st) (isGenerating st) (canvasRef st)
          (fabricCanvasRef st) h (console st) (timers st).

Definition set_fabricCanvasRef (r : option nat) (st : State) : State :=
  mkState (images st) (previewUrl st) (isGenerating st) (canvasRef st)
          r (heap st) (console st) (timers st).

Definition console_error (e : JsError) (st : State) : State :=
  mkState (images st) (previewUrl st) (isGenerating st) (canvasRef st)
          (fabricCanvasRef st) (heap st) (console st ++ [e]) (timers st).

Definition setTimeout (cb : TimerCallback) (ms : Z) (st : State) : State :=
  mkState (images st) (previewUrl st) (isGenerating st) (canvasRef st)
          (fabricCanvasRef st) (heap st) (console st)
          (timers st ++ [mkTimer ms cb]).

(** [update h f l]: the heap [l] with [f] applied to the canvas at [h]. *)
Fixpoint update (h : nat) (f : Canvas -> Canvas) (l : list Canvas) : list Canvas :=
  match l, h with
  | [], _ => []
  | c :: r, O => f c :: r
  | c :: r, S h' => c :: update h' f r
  end.

(** ** [loadFabricImage] and [Promise.all] *)

Definition loadFabricImage (env : Env) (source : string) : JsError + FabricImage :=
  match fromURL env source with
  | inr (Some img) => inr img
  | inr None => inl (PlainError "Error" "Failed to load image")
  | inl e => inl e
  end.

(** All results when every promise resolves, otherwise a rejection (the
    first one in list order). *)
Fixpoint Promise_all {A : Type} (ps : list (JsError + A)) : JsError + list A :=
  match ps with
  | [] => inr []
  | inl e :: _ => inl e
  | inr a :: r =>
      match Promise_all r with
      | inl e => inl e
      | inr l => inr (a :: l)
      end
  end.

(** ** The layout: lines 136-152 of [generatePreview] *)

Definition CANVAS_WIDTH : Q := 800.

Record Layout : Type := mkLayout {
  firstImageHeight : Q;
  CAPTION_HEIGHT : Q;
  totalHeight : Q
}.

(** [count] is [images.length]. *)
Definition compute_layout (firstImage : FabricImage) (count : nat) : M Layout :=
  firstImageScale <- div CANVAS_WIDTH (or_default (width firstImage) 1) ;;
  let firstImageHeight := or_default (height firstImage) 600 * firstImageScale in
  let CAPTION_HEIGHT :=
    Math_min (Math_max (firstImageHeight * (15 # 100)) 80) 120 in
  let totalHeight :=
    firstImageHeight + (inject_Z (Z.of_nat count) - 1) * CAPTION_HEIGHT in
  Done (mkLayout firstImageHeight CAPTION_HEIGHT totalHeight).

(** ** The body of the drawing loop: lines 168-294 *)

(** The two layers of the [zh] caption and the single [jp] layer. *)
Definition zhBackgroundText (s : string) (left top : Q) : TextObject :=
  mkTextObject s left top 36 "Yuanti, Noto Sans TC, sans-serif" "bold"
               "#003153" "center" "center" false (8 # 10)
               (mkShadow "#003153" 2 (-1) (-1)).

Definition zhText (s : string) (left top : Q) : TextObject :=
  mkTextObject s left top 36 "Yuanti, Noto Sans TC, sans-serif" "bold"
               "white" "center" "center" false 1
               (mkShadow "#003153" 2 2 2).

Definition jpText (s : string) (left top : Q) : TextObject :=
  mkTextObject s left top 20 "Noto Sans JP, sans-serif" "normal"
               "white" "center" "center" false 1
               (mkShadow "#000000" 0 1 1).

(** Lines 216-293: the texts added for item [imageData] of iteration [i],
    [currentY] being the value after the image of the iteration was
    placed. *)
Definition caption_objects (L : Layout) (i : nat) (currentY : Q)
    (imageData : ImageItem) : M (list FabricObject) :=
  let c := caption imageData in
  if truthy (zh c) || truthy (jp c) then
    let sectionTop :=
      if Nat.eqb i 0 then currentY - firstImageHeight L
      else currentY - CAPTION_HEIGHT L in
    let sectionHeight :=
      if Nat.eqb i 0 then firstImageHeight L else CAPTION_HEIGHT L in
    zhObjects <-
      (if truthy (zh c) then
         let zhTop :=
           sectionTop + sectionHeight - (if truthy (jp c) then 65 else 55) in
         bgLeft <- div CANVAS_WIDTH 2 ;;
         fgLeft <- div CANVAS_WIDTH 2 ;;
         Done [TextObj (zhBackgroundText (zh c) bgLeft zhTop);
               TextObj (zhText (zh c) fgLeft zhTop)]
       else Done []) ;;
    jpObjects <-
      (if truthy (jp c) then
         jpLeft <- div CANVAS_WIDTH 2 ;;
         Done [TextObj (jpText (jp c) jpLeft (sectionTop + sectionHeight - 25))]
       else Done []) ;;
    Done (zhObjects ++ jpObjects)
  else Done [].

(** What one iteration contributes: the band of the canvas it fills
    ([topY] is [currentY] on entry, [heightPx] what it adds to
    [currentY]), the item it shows, and the objects it adds in order. *)
Record Band : Type := mkBand {
  index : nat;
  topY : Q;
  heightPx : Q;
  item : ImageItem;
  drawn : list FabricObject
}.

(** Lines 172-214: the image of iteration [i] and the advance of
    [currentY]. *)
Definition place_image (env : Env) (L : Layout) (i : nat) (currentY : Q)
    (img : FabricImage) : M (ImageObject * Q) :=
  if Nat.eqb i 0 then
    sx <- div CANVAS_WIDTH (or_default (width img) 1) ;;
    sy <- div (firstImageHeight L) (or_default (height img) 1) ;;
    Done (mkImageObject img 0 currentY sx sy false None, firstImageHeight L)
  else
    clonedImg <- await (clone env img) ;;
    imgScale <- div CANVAS_WIDTH (or_default (width img) 1) ;;
    let fullScaledHeight := or_default (height img) 600 * imgScale in
    let imgTop := currentY + CAPTION_HEIGHT L - fullScaledHeight in
    let clipRect := mkRect 0 currentY CANVAS_WIDTH (CAPTION_HEIGHT L) true in
    Done (mkImageObject clonedImg 0 imgTop imgScale imgScale false (Some clipRect),
          CAPTION_HEIGHT L).

Definition loop_body (env : Env) (L : Layout) (i : nat) (currentY : Q)
    (img : FabricImage) (imageData : ImageItem) : M (Band * Q) :=
  placed <- place_image env L i currentY img ;;
  let currentY' := currentY + snd placed in
  texts <- caption_objects L i currentY' imageData ;;
  Done (mkBand i currentY (snd placed) imageData (ImageObj (fst placed) :: texts),
        currentY').

(** The loop over [loadedImages[i]] and [images[i]]: the bands completed,
    and how the loop ended. *)
Fixpoint draw_loop (env : Env) (L : Layout) (i : nat) (currentY : Q)
    (todo : list (FabricImage * ImageItem)) : list Band * M unit :=
  match todo with
  | [] => ([], Done tt)
  | (img, imageData) :: rest =>
      match loop_body env L i currentY img imageData with
      | Done (b, currentY') =>
          let (bs, r) := draw_loop env L (S i) currentY' rest in
          (b :: bs, r)
      | Throw e => ([], Throw e)
      | NonFinite => ([], NonFinite)
      end
  end.

(** ** [generatePreview] *)

(** Lines 128-130. *)
Definition dispose_current (st : State) : State :=
  match fabricCanvasRef st with
  | Some h => set_heap (update h dispose (heap st)) st
  | None => st
  end.

(** The [try] block, lines 128-306: the state where it ended, and how. *)
Definition try_block (env : Env) (st : State) : State * M unit :=
  let st := dispose_current st in
  match Promise_all (map (fun img => loadFabricImage env (url img)) (images st)) with
  | inl e => (st, Throw e)
  | inr loadedImages =>
      match nth_error loadedImages 0 with
      | None =>
          (st, Throw (PlainError "TypeError" "firstImage is undefined"))
      | Some firstImage =>
          match compute_layout firstImage (List.length (images st)) with
          | Done L =>
              let st := set_canvas_element
                          (mkCanvasElement CANVAS_WIDTH (totalHeight L)) st in
              let h := List.length (heap st) in
              let fabricCanvas :=
                mkCanvas CANVAS_WIDTH (totalHeight L) "white" [] [] false in
              let st := set_fabricCanvasRef (Some h) st in
              let (bands, r) :=
                draw_loop env L 0 0 (combine loadedImages (images st)) in
              let fabricCanvas := add (flat_map drawn bands) fabricCanvas in
              match r with
              | Done _ =>
                  let st := set_heap (heap st ++ [renderAll fabricCanvas]) st in
                  (setTimeout (ReadbackPreview h) 100%Z st, Done tt)
              | Throw e => (set_heap (heap st ++ [fabricCanvas]) st, Throw e)
              | NonFinite => (st, NonFinite)
              end
          | Throw e => (st, Throw e)
          | NonFinite => (st, NonFinite)
          end
      end
  end.

(** Lines 307-310. *)
Definition catch_block (error : JsError) (st : State) : State :=
  setIsGenerating false (console_error error st).

(** The whole function.  No result only where a division by zero was
    reached. *)
Definition generatePreview (env : Env) (st : State) : option (State * Completion) :=
  if Nat.eqb (List.length (images st)) 0 then Some (st, Resolved)
  else
    let st := setIsGenerating true st in
    match canvasRef st with
    | None => Some (st, Resolved)
    | Some _ =>
        match try_block env st with
        | (st', Done _) => Some (st', Resolved)
        | (st', Throw e) => Some (catch_block e st', Resolved)
        | (_, NonFinite) => None
        end
    end.

(** The timer callback, lines 298-306; no result when the canvas it
    refers to is gone. *)
Definition run_callback (cb : TimerCallback) (st : State) : option State :=
  match cb with
  | ReadbackPreview h =>
      match nth_error (heap st) h with
      | Some fabricCanvas =>
          Some (setIsGenerating false (setPreviewUrl (toDataURL fabricCanvas) st))
      | None => None
      end
  end.

(** The two ways a render fails: a load is rejected, or all images load
    and the drawing loop throws. *)
Definition load_fails (env : Env) (st : State) (e : JsError) : Prop :=
  Promise_all (map (fun img => loadFabricImage env (url img)) (images st))
    = inl e.


(** ** What the specification calls things *)

(** [clamp x lo hi] as the specification uses it: [x] brought into
    [[lo, hi]]. *)
Definition clamp (x lo hi : Q) : Q :=
  if Qle_bool x lo then lo else if Qle_bool hi x then hi else x.


(** The height iteration [i] gives its band. *)
Definition band_height (L : Layout) (i : nat) : Q :=
  if Nat.eqb i 0 then firstImageHeight L else CAPTION_HEIGHT L.

(** The texts of a band whose bottom edge is at [bottom], as lines
    216-293 lay them out. *)
Definition zh_layers (c : Caption) (bottom : Q) : list TextObject :=
  if truthy (zh c) then
    let zhTop := bottom - (if truthy (jp c) then 65 else 55) in
    [zhBackgroundText (zh c) (CANVAS_WIDTH / 2) zhTop;
     zhText (zh c) (CANVAS_WIDTH / 2) zhTop]
  else [].

Definition jp_layers (c : Caption) (bottom : Q) : list TextObject :=
  if truthy (jp c) then [jpText (jp c) (CANVAS_WIDTH / 2) (bottom - 25)]
  else [].

(** [sectionTop + sectionHeight] of iteration [i]. *)
Definition section_bottom (L : Layout) (i : nat) (currentY : Q) : Q :=
  (if Nat.eqb i 0 then currentY - firstImageHeight L
   else currentY - CAPTION_HEIGHT L) + band_height L i.

(** The layers of a caption, told from a text by its style: the two
    layers of the primary caption are set in size 36, the lower one
    filled with the outline colour, the upper one in white; the
    secondary caption is set in size 20. *)
Inductive Role : Type :=
| Glow
| WhiteFill
| Secondary
| Unstyled.

Definition role (t : TextObject) : Role :=
  if Qeq_bool (fontSize t) 36 then
    if String.eqb (fill t) "#003153" then Glow
    else if String.eqb (fill t) "white" then WhiteFill
    else Unstyled
  else if Qeq_bool (fontSize t) 20 then
    if String.eqb (fill t) "white" then Secondary else Unstyled
  else Unstyled.

(** What the specification asks of a render that fails: the promise is
    rejected with an error of the given name, and no canvas is left
    undisposed. *)
Definition fails_with (name : string)
    (res : option (State * Completion)) : Prop :=
  exists st' e, res = Some (st', Rejected e) /\ error_name e = name.


(** The outcomes the specification describes and the code does not have:
    a render on no items that fails with [EmptyInputError]; a failing
    render reported as a [RenderError] that wraps its cause, with the
    preview untouched and every canvas released; and a render whose
    readback has been produced when [generatePreview] is through, with no
    timer left. *)
Definition fails_on_empty_input (env : Env) (st : State) : Prop :=
  fails_with "EmptyInputError" (generatePreview env st).


Definition finalized_synchronously (env : Env) (st : State) : Prop :=
  exists st' h fabricCanvas,
    generatePreview env st = Some (st', Resolved) /\
    fabricCanvasRef st' = Some h /\
    nth_error (heap st') h = Some fabricCanvas /\
    previewUrl st' = toDataURL fabricCanvas /\
    timers st' = timers st.

(** ** Sample inputs *)

Definition sample_fromURL (source : string) : JsError + option FabricImage :=
  if String.eqb source "blob:first" then
    inr (Some (mkFabricImage "blob:first" (Some 1000) (Some 1000)))
  else if String.eqb source "blob:second" then
    inr (Some (mkFabricImage "blob:second" (Some 640) (Some 480)))
  else if String.eqb source "blob:wide" then
    inr (Some (mkFabricImage "blob:wide" (Some 1000) (Some 600)))
  else if String.eqb source "blob:tall" then
    inr (Some (mkFabricImage "blob:tall" (Some 400) (Some 2000)))
  else inl (PlainError "Error" "not an image").

Definition sample_env : Env :=
  mkEnv sample_fromURL (fun img => inr img).


Definition sample_item (source primary secondary : string) : ImageItem :=
  mkImageItem source source (mkCaption primary secondary) None.

Definition sample_state (items : list ImageItem) : State :=
  mkState items EmptyUrl false (Some (mkCanvasElement 300 150)) None [] [] [].

Definition first_image : FabricImage :=
  mkFabricImage "blob:first" (Some 1000) (Some 1000).

Definition second_image : FabricImage :=
  mkFabricImage "blob:second" (Some 640) (Some 480).

Definition two_items : list ImageItem :=
  [sample_item "blob:first" EmptyString EmptyString;
   sample_item "blob:second" "zh" EmptyString].

Definition three_items : list ImageItem :=
  [sample_item "blob:tall" EmptyString EmptyString;
   sample_item "blob:first" "zh" "jp";
   sample_item "blob:second" EmptyString "jp"].

(** The canvas [generatePreview] leaves behind [fabricCanvasRef]. *)
Definition rendered_canvas (env : Env) (st : State) : option Canvas :=
  match generatePreview env st with
  | Some (st', _) =>
      match fabricCanvasRef st' with
      | Some h => nth_error (heap st') h
      | None => None
      end
  | None => None
  end.

Definition two_loaded : list (FabricImage * ImageItem) :=
  combine [first_image; second_image] two_items.

(** ** The rest of the component: the handlers of the item list

    [App] adds to [State] what the other handlers use: the flag of the
    copy dialog, the object URLs the browser holds for the page, the
    alerts shown, the downloads started, and how many ids were drawn.
    A handler runs on the state of the render it was made in, which is
    the state its updater functions are applied to. *)

(** A [File] of the file input: its name and its MIME type. *)
Record File : Type := mkFile {
  file_name : string;
  file_type : string
}.

(** What the browser hands out on the [n]-th request: the id built from
    [Date.now()] and [Math.random()], and the URL of
    [URL.createObjectURL]. *)
Record Supply : Type := mkSupply {
  new_id : nat -> string;
  new_url : nat -> string
}.

(** The two caption keys, ["zh"] and ["jp"]. *)
Inductive Lang : Type :=
| LangZh
| LangJp.

(** A download started by [downloadImage]: the link target, and the time
    that names the file. *)
Record Download : Type := mkDownload {
  download_time : Z;
  href : DataUrl
}.

Record App : Type := mkApp {
  component : State;
  showCopyModal : bool;
  objectURLs : list string;
  alerts : list string;
  downloads : list Download;
  issued : nat
}.

Definition setImages (l : list ImageItem) (st : State) : State :=
  mkState l (previewUrl st) (isGenerating st) (canvasRef st)
          (fabricCanvasRef st) (heap st) (console st) (timers st).

Definition with_component (st : State) (app : App) : App :=
  mkApp st (showCopyModal app) (objectURLs app) (alerts app)
        (downloads app) (issued app).

(** [x || d] on an optional string. *)
Definition or_string (x : option string) (d : string) : string :=
  match x with
  | Some s => if truthy s then s else d
  | None => d
  end.

(** Truthiness of a preview URL. *)
Definition url_truthy (u : DataUrl) : bool :=
  match u with
  | EmptyUrl => false
  | PngDataUrl _ _ _ _ => true
  end.

Definition revokeObjectURL (u : string) (urls : list string) : list string :=
  filter (fun v => negb (String.eqb v u)) urls.

(** Lines 28-45: what [handleImageUpload] does with one file. *)
Definition upload_file (sup : Supply) (app : App) (file : File) : App :=
  if String.prefix "image/" (file_type file) then
    let newImage :=
      mkImageItem (new_id sup (issued app)) (new_url sup (issued app))
                  (mkCaption EmptyString EmptyString) None in
    mkApp (setImages (images (component app) ++ [newImage]) (component app))
          (showCopyModal app) (objectURLs app ++ [url newImage])
          (alerts app) (downloads app) (S (issued app))
  else app.

(** Lines 24-46; [files] is [event.target.files]. *)
Definition handleImageUpload (sup : Supply) (files : option (list File))
    (app : App) : App :=
  match files with
  | None => app
  | Some fs => fold_left (upload_file sup) fs app
  end.

(** Lines 49-66. *)
Definition copyImage (sup : Supply) (originalImage : ImageItem) (app : App) : App :=
  let copiedImage :=
    mkImageItem (new_id sup (issued app)) (url originalImage)
                (mkCaption (zh (caption originalImage))
                           (jp (caption originalImage)))
                (Some (or_string (originalId originalImage) (id originalImage))) in
  mkApp (setPreviewUrl EmptyUrl
           (setImages (images (component app) ++ [copiedImage]) (component app)))
        false (objectURLs app) (alerts app) (downloads app) (S (issued app)).

Definition set_caption (lang : Lang) (value : string) (c : Caption) : Caption :=
  match lang with
  | LangZh => mkCaption value (jp c)
  | LangJp => mkCaption (zh c) value
  end.

(** Lines 68-76. *)
Definition updateCaption (id0 : string) (lang : Lang) (value : string)
    (app : App) : App :=
  with_component
    (setImages
       (map (fun img =>
               if String.eqb (id img) id0 then
                 mkImageItem (id img) (url img)
                             (set_caption lang value (caption img))
                             (originalId img)
               else img)
            (images (component app)))
       (component app))
    app.

(** Lines 78-89. *)
Definition removeImage (id0 : string) (app : App) : App :=
  let st := component app in
  let imageToRemove := find (fun img => String.eqb (id img) id0) (images st) in
  let sameUrlCount :=
    List.length
      (filter (fun img =>
                 match imageToRemove with
                 | Some r => String.eqb (url img) (url r)
                 | None => false
                 end)
              (images st)) in
  let urls :=
    match imageToRemove with
    | Some r =>
        if Nat.eqb sameUrlCount 1 then revokeObjectURL (url r) (objectURLs app)
        else objectURLs app
    | None => objectURLs app
    end in
  mkApp (setPreviewUrl EmptyUrl
           (setImages (filter (fun img => negb (String.eqb (id img) id0))
                              (images st)) st))
        (showCopyModal app) urls (alerts app) (downloads app) (issued app).

(** Lines 96-102. *)
Definition showCopyImageModal (app : App) : App :=
  if Nat.eqb (List.length (images (component app))) 0 then
    mkApp (component app) (showCopyModal app) (objectURLs app)
          (alerts app ++ ["请先上传至少一张图片"%string])
          (downloads app) (issued app)
  else
    mkApp (component app) true (objectURLs app) (alerts app)
          (downloads app) (issued app).

(** Lines 313-322; [time] is [new Date().getTime()]. *)
Definition downloadImage (time : Z) (app : App) : App :=
  if url_truthy (previewUrl (component app)) then
    mkApp (component app) (showCopyModal app) (objectURLs app) (alerts app)
          (downloads app ++ [mkDownload time (previewUrl (component app))])
          (issued app)
  else app.


(** ** What the page shows: lines 440-487 *)

Inductive PreviewPanel : Type :=
| UploadPlaceholder
| Spinner
| PreviewImage (source : DataUrl)
| GenerateHint.

Definition preview_panel (st : State) : PreviewPanel :=
  if Nat.eqb (List.length (images st)) 0 then UploadPlaceholder
  else if isGenerating st then Spinner
  else if url_truthy (previewUrl st) then PreviewImage (previewUrl st)
  else GenerateHint.

(** The generate button: absent, or present and possibly disabled. *)
Definition generate_button (st : State) : option bool :=
  if Nat.ltb 0 (List.length (images st)) then Some (isGenerating st) else None.

Definition download_button (st : State) : bool :=
  Nat.ltb 0 (List.length (images st)) && url_truthy (previewUrl st).

(** ** Invariants of the page *)

(** Every item shows a URL the browser still holds. *)
Definition urls_live (app : App) : Prop :=
  forall img, In img (images (component app)) -> In (url img) (objectURLs app).

(** Every URL the browser holds is shown by some item. *)
Definition urls_used (app : App) : Prop :=
  forall u, In u (objectURLs app) ->
            exists img, In img (images (component app)) /\ url img = u.

Definition unique_ids (app : App) : Prop :=
  NoDup (map id (images (component app))).


(** Every id in the list is one the supply has handed out already. *)
Definition ids_issued (sup : Supply) (app : App) : Prop :=
  forall img, In img (images (component app)) ->
              exists n, (n < issued app)%nat /\ id img = new_id sup n.

(** [caption[lang]]. *)
Definition get_caption (lang : Lang) (c : Caption) : string :=
  match lang with
  | LangZh => zh c
  | LangJp => jp c
  end.

(** [file.type.startsWith("image/")]. *)
Definition is_image_file (file : File) : bool :=
  String.prefix "image/" (file_type file).

(** ** Sample page *)

Fixpoint tally (n : nat) : string :=
  match n with
  | O => EmptyString
  | S k => String.append "i" (tally k)
  end.

Definition sample_supply : Supply :=
  mkSupply (fun n => String.append "id:" (tally n))
           (fun n => String.append "blob:" (tally n)).

Definition sample_app : App :=
  mkApp (sample_state two_items) false ["blob:first"; "blob:second"]%string
        [] [] 0.

Definition empty_app : App :=
  mkApp (sample_state []) false [] [] [] 0.

Definition png_file : File := mkFile "photo.png" "image/png".

Definition text_file : File := mkFile "notes.txt" "text/plain".

(** An environment in which every load resolves, but with no image. *)
Definition null_image_env : Env :=
  mkEnv (fun _ => inr None) (fun img => inr img).

(** ** Arithmetic of the JavaScript operators *)

Lemma or_default_nonzero (x : option Q) (d : Q) :
  ~ d == 0 -> ~ or_default x d == 0.
Proof.
  intros Hd. unfold or_default. destruct x as [q|]; [|exact Hd].
  destruct (Qeq_bool q 0) eqn:E; [exact Hd|].
  intros H. apply Qeq_bool_iff in H. congruence.
Qed.

Lemma or_default_some (q d : Q) : ~ q == 0 -> or_default (Some q) d = q.
Proof.
  intros Hq. unfold or_default.
  destruct (Qeq_bool q 0) eqn:E; [|reflexivity].
  apply Qeq_bool_iff in E. contradiction.
Qed.

Lemma or_default_falsy (q d : Q) : q == 0 -> or_default (Some q) d = d.
Proof.
  intros Hq. unfold or_default. apply Qeq_bool_iff in Hq. now rewrite Hq.
Qed.

Lemma div_defined (a b : Q) : ~ b == 0 -> div a b = Done (a / b).
Proof.
  intros Hb. unfold div, js_div.
  destruct (Qeq_bool b 0) eqn:E; [|reflexivity].
  apply Qeq_bool_iff in E. contradiction.
Qed.

Lemma div_or_default (a : Q) (x : option Q) (d : Q) :
  ~ d == 0 -> div a (or_default x d) = Done (a / or_default x d).
Proof. intros Hd. apply div_defined, or_default_nonzero, Hd. Qed.

Lemma one_nonzero : ~ 1 == 0.
Proof. discriminate. Qed.

Lemma Math_clamp (x : Q) : Math_min (Math_max x 80) 120 == clamp x 80 120.
Proof.
  unfold Math_min, Math_max, clamp.
  destruct (Qle_bool x 80) eqn:E1.
  - reflexivity.
  - destruct (Qle_bool x 120) eqn:E2.
    + destruct (Qle_bool 120 x) eqn:E3; [|reflexivity].
      apply Qle_bool_iff in E2, E3. symmetry. now apply Qle_antisym.
    + destruct (Qle_bool 120 x) eqn:E3; [reflexivity|].
      assert (H : ~ x <= 120) by (rewrite <- Qle_bool_iff; congruence).
      assert (H' : ~ 120 <= x) by (rewrite <- Qle_bool_iff; congruence).
      lra.
Qed.

Lemma clamp_bounds (x : Q) : 80 <= clamp x 80 120 <= 120.
Proof.
  unfold clamp.
  destruct (Qle_bool x 80) eqn:E1; [lra|].
  destruct (Qle_bool 120 x) eqn:E2; [lra|].
  assert (H : ~ x <= 80) by (rewrite <- Qle_bool_iff; congruence).
  assert (H' : ~ 120 <= x) by (rewrite <- Qle_bool_iff; congruence).
  lra.
Qed.

(** ** The layout is always computed *)

Lemma compute_layout_done (firstImage : FabricImage) (count : nat) :
  exists L, compute_layout firstImage count = Done L /\
    firstImageHeight L =
      or_default (height firstImage) 600 *
      (CANVAS_WIDTH / or_default (width firstImage) 1) /\
    CAPTION_HEIGHT L =
      Math_min (Math_max (firstImageHeight L * (15 # 100)) 80) 120 /\
    totalHeight L =
      firstImageHeight L + (inject_Z (Z.of_nat count) - 1) * CAPTION_HEIGHT L.
Proof.
  unfold compute_layout.
  rewrite (div_or_default _ _ _ one_nonzero). cbn [bind].
  eexists. split; [reflexivity|]. cbn. repeat split.
Qed.

Lemma CAPTION_HEIGHT_bounds (firstImage : FabricImage) (count : nat)
      (L : Layout) :
  compute_layout firstImage count = Done L ->
  80 <= CAPTION_HEIGHT L <= 120.
Proof.
  intros HL.
  destruct (compute_layout_done firstImage count) as (L' & HL' & _ & Hc & _).
  rewrite HL in HL'. inversion HL'; subst L'.
  rewrite Hc, Math_clamp. apply clamp_bounds.
Qed.

(** ** One iteration of the loop *)

Section Iteration.

Variable env : Env.
Variable L : Layout.

Lemma half_width : div CANVAS_WIDTH 2 = Done (CANVAS_WIDTH / 2).
Proof. apply div_defined. discriminate. Qed.

Lemma caption_objects_done (i : nat) (currentY : Q) (d : ImageItem) :
  caption_objects L i currentY d =
  Done (map TextObj (zh_layers (caption d) (section_bottom L i currentY) ++
                     jp_layers (caption d) (section_bottom L i currentY))).
Proof.
  unfold caption_objects, zh_layers, jp_layers, section_bottom, band_height.
  rewrite !half_width.
  destruct (truthy (zh (caption d))), (truthy (jp (caption d)));
    reflexivity.
Qed.

Lemma section_bottom_after (i : nat) (y : Q) :
  section_bottom L i (y + band_height L i) == y + band_height L i.
Proof.
  unfold section_bottom, band_height. destruct (Nat.eqb i 0); ring.
Qed.

Lemma place_image_first (y : Q) (img : FabricImage) :
  place_image env L 0 y img =
  Done (mkImageObject img 0 y
          (CANVAS_WIDTH / or_default (width img) 1)
          (firstImageHeight L / or_default (height img) 1)
          false None,
        firstImageHeight L).
Proof.
  unfold place_image. cbn [Nat.eqb].
  now rewrite !(div_or_default _ _ _ one_nonzero).
Qed.

Lemma place_image_next (i : nat) (y : Q) (img : FabricImage) :
  i <> O ->
  place_image env L i y img =
  match clone env img with
  | inl e => Throw e
  | inr clonedImg =>
      let imgScale := CANVAS_WIDTH / or_default (width img) 1 in
      Done (mkImageObject clonedImg 0
              (y + CAPTION_HEIGHT L - or_default (height img) 600 * imgScale)
              imgScale imgScale false
              (Some (mkRect 0 y CANVAS_WIDTH (CAPTION_HEIGHT L) true)),
            CAPTION_HEIGHT L)
  end.
Proof.
  intros Hi. unfold place_image.
  destruct (Nat.eqb i 0) eqn:E; [apply Nat.eqb_eq in E; contradiction|].
  destruct (clone env img) as [e|c]; cbn [await bind]; [reflexivity|].
  now rewrite (div_or_default _ _ _ one_nonzero).
Qed.

Lemma place_image_advance (i : nat) (y : Q) (img : FabricImage)
      (io : ImageObject) (h : Q) :
  place_image env L i y img = Done (io, h) -> h = band_height L i.
Proof.
  destruct i as [|i].
  - rewrite place_image_first. intros H. now inversion H.
  - rewrite place_image_next by discriminate.
    destruct (clone env img); [discriminate|].
    intros H. now inversion H.
Qed.

Lemma place_image_never_nonfinite (i : nat) (y : Q) (img : FabricImage) :
  place_image env L i y img <> NonFinite.
Proof.
  destruct i as [|i].
  - now rewrite place_image_first.
  - rewrite place_image_next by discriminate.
    now destruct (clone env img).
Qed.

(** What a completed iteration leaves behind. *)
Lemma loop_body_inv (i : nat) (y : Q) (img : FabricImage) (d : ImageItem)
      (b : Band) (y' : Q) :
  loop_body env L i y img d = Done (b, y') ->
  exists io,
    place_image env L i y img = Done (io, band_height L i) /\
    index b = i /\ topY b = y /\ heightPx b = band_height L i /\
    item b = d /\ y' = y + band_height L i /\
    drawn b =
      ImageObj io ::
      map TextObj (zh_layers (caption d) (section_bottom L i y') ++
                   jp_layers (caption d) (section_bottom L i y')).
Proof.
  unfold loop_body.
  destruct (place_image env L i y img) as [[io h]| |] eqn:P;
    cbn [bind]; try discriminate.
  rewrite caption_objects_done. cbn [bind fst snd].
  pose proof (place_image_advance _ _ _ _ _ P) as ->.
  intros H. inversion H; subst. exists io. cbn. repeat split.
Qed.

Lemma loop_body_never_nonfinite (i : nat) (y : Q) (img : FabricImage)
      (d : ImageItem) :
  loop_body env L i y img d <> NonFinite.
Proof.
  unfold loop_body.
  pose proof (place_image_never_nonfinite i y img) as N.
  destruct (place_image env L i y img) as [[io h]| |];
    cbn [bind]; try discriminate; [|contradiction].
  now rewrite caption_objects_done.
Qed.

Lemma loop_body_clone_ok (i : nat) (y : Q) (img : FabricImage)
      (d : ImageItem) :
  (i <> O -> exists c, clone env img = inr c) ->
  exists b, loop_body env L i y img d = Done (b, y + band_height L i).
Proof.
  intros Hc. unfold loop_body.
  destruct i as [|i].
  - rewrite place_image_first. cbn [bind fst snd].
    rewrite caption_objects_done. cbn [bind]. eexists. reflexivity.
  - rewrite place_image_next by discriminate.
    destruct Hc as [c ->]; [discriminate|]. cbn [bind fst snd].
    rewrite caption_objects_done. cbn [bind]. eexists. reflexivity.
Qed.

End Iteration.

(** ** The loop *)

Section Loop.

Variable env : Env.
Variable L : Layout.

(** Band [k] of the result is what iteration [i + k] made of entry [k]
    of the list, started at the band's [topY]. *)
Lemma draw_loop_nth (todo : list (FabricImage * ImageItem)) :
  forall (i : nat) (y : Q) (bands : list Band) (r : M unit),
    draw_loop env L i y todo = (bands, r) ->
    forall (k : nat) (b : Band),
      nth_error bands k = Some b ->
      exists img d,
        nth_error todo k = Some (img, d) /\
        loop_body env L (i + k) (topY b) img d =
          Done (b, topY b + heightPx b).
Proof.
  induction todo as [|[img d] rest IH]; intros i y bands r H k b Hk.
  - cbn in H. inversion H; subst. destruct k; discriminate.
  - cbn [draw_loop] in H.
    destruct (loop_body env L i y img d) as [[b0 y0]| |] eqn:B.
    + destruct (draw_loop env L (S i) y0 rest) as [bs r0] eqn:D.
      inversion H; subst. destruct k as [|k].
      * cbn in Hk. inversion Hk; subst b0.
        exists img, d. split; [reflexivity|].
        destruct (loop_body_inv _ _ _ _ _ _ _ _ B)
          as (io & _ & _ & Ht & Hh & _ & Hy & _).
        rewrite Nat.add_0_r, Ht, Hh, <- Hy. exact B.
      * cbn in Hk. destruct (IH _ _ _ _ D k b Hk) as (img' & d' & Hn & Hb).
        exists img', d'. split; [exact Hn|].
        now rewrite Nat.add_succ_r.
    + inversion H; subst. destruct k; discriminate.
    + inversion H; subst. destruct k; discriminate.
Qed.

Lemma draw_loop_first (todo : list (FabricImage * ImageItem))
      (i : nat) (y : Q) (bands : list Band) (r : M unit) (b : Band) :
  draw_loop env L i y todo = (bands, r) ->
  nth_error bands 0 = Some b -> topY b = y.
Proof.
  destruct todo as [|[img d] rest]; cbn [draw_loop]; intros H Hb.
  - inversion H; subst. discriminate.
  - destruct (loop_body env L i y img d) as [[b0 y0]| |] eqn:B.
    + destruct (draw_loop env L (S i) y0 rest) as [bs r0].
      inversion H; subst. cbn in Hb. inversion Hb; subst.
      now destruct (loop_body_inv _ _ _ _ _ _ _ _ B) as (io & _ & _ & Ht & _).
    + inversion H; subst. discriminate.
    + inversion H; subst. discriminate.
Qed.


Lemma draw_loop_never_nonfinite (todo : list (FabricImage * ImageItem)) :
  forall (i : nat) (y : Q), snd (draw_loop env L i y todo) <> NonFinite.
Proof.
  induction todo as [|[img d] rest IH]; intros i y; cbn [draw_loop].
  - discriminate.
  - pose proof (loop_body_never_nonfinite env L i y img d) as N.
    destruct (loop_body env L i y img d) as [[b0 y0]| |];
      [|discriminate|contradiction].
    specialize (IH (S i) y0).
    destruct (draw_loop env L (S i) y0 rest) as [bs r0]. exact IH.
Qed.

(** With every clone available the loop runs through the whole list. *)
Lemma draw_loop_rest_complete (todo : list (FabricImage * ImageItem)) :
  forall (i : nat) (y : Q),
    i <> O ->
    (forall img d, In (img, d) todo -> exists c, clone env img = inr c) ->
    exists bands,
      draw_loop env L i y todo = (bands, Done tt) /\
      List.length bands = List.length todo.
Proof.
  induction todo as [|[img d] rest IH]; intros i y Hi Hc; cbn [draw_loop].
  - exists []. split; reflexivity.
  - destruct (loop_body_clone_ok env L i y img d) as [b Hb].
    { intros _. apply (Hc img d). now left. }
    rewrite Hb.
    destruct (IH (S i) (y + band_height L i)) as (bs & -> & Hl).
    { discriminate. }
    { intros img' d' Hin. apply (Hc img' d'). now right. }
    exists (b :: bs). split; [reflexivity|]. cbn. now rewrite Hl.
Qed.

Lemma draw_loop_complete (img0 : FabricImage) (d0 : ImageItem)
      (rest : list (FabricImage * ImageItem)) :
  (forall img d, In (img, d) rest -> exists c, clone env img = inr c) ->
  exists bands,
    draw_loop env L 0 0 ((img0, d0) :: rest) = (bands, Done tt) /\
    List.length bands = S (List.length rest).
Proof.
  intros Hc. cbn [draw_loop].
  destruct (loop_body_clone_ok env L 0 0 img0 d0) as [b Hb].
  { intros H. now contradiction H. }
  rewrite Hb.
  destruct (draw_loop_rest_complete rest 1 (0 + band_height L 0))
    as (bs & -> & Hl); [discriminate|exact Hc|].
  exists (b :: bs). split; [reflexivity|]. cbn. now rewrite Hl.
Qed.



End Loop.

(** ** The heights of the layout *)

(** C1.  For a first image of positive pixel size [w0] x [h0] and any
    number of items, the layout is computed, the caption band height is
    [clamp (fullHeight0 * 0.15) 80 120] with
    [fullHeight0 = h0 * (800 / w0)], the canvas height is
    [fullHeight0 + (count - 1) * captionBandHeight], and for a single item
    it is [fullHeight0]. *)
Theorem layout_heights (firstImage : FabricImage) (w0 h0 : Q) (count : nat) :
  width firstImage = Some w0 ->
  height firstImage = Some h0 ->
  0 < w0 -> 0 < h0 -> (1 <= count)%nat ->
  exists L,
    compute_layout firstImage count = Done L /\
    firstImageHeight L == h0 * (800 / w0) /\
    CAPTION_HEIGHT L == clamp (h0 * (800 / w0) * (15 # 100)) 80 120 /\
    totalHeight L ==
      h0 * (800 / w0) + (inject_Z (Z.of_nat count) - 1) * CAPTION_HEIGHT L /\
    (count = 1%nat -> totalHeight L == h0 * (800 / w0)).
Proof.
  intros Hw Hh Hw0 Hh0 _.
  destruct (compute_layout_done firstImage count) as (L & HL & Hf & Hc & Ht).
  rewrite Hw, Hh in Hf.
  rewrite or_default_some in Hf by lra.
  rewrite or_default_some in Hf by lra.
  change CANVAS_WIDTH with 800 in Hf.
  exists L. split; [exact HL|].
  split; [rewrite Hf; reflexivity|].
  split; [rewrite Hc, Hf; apply Math_clamp|].
  split; [rewrite Ht, Hf; reflexivity|].
  intros ->. rewrite Ht, Hf. cbn [Z.of_nat Pos.of_succ_nat]. ring.
Qed.

Lemma layout_heights_witness :
  exists L,
    compute_layout first_image 2 = Done L /\
    firstImageHeight L == 1000 * (800 / 1000) /\
    CAPTION_HEIGHT L == clamp (1000 * (800 / 1000) * (15 # 100)) 80 120 /\
    totalHeight L ==
      1000 * (800 / 1000) + (inject_Z (Z.of_nat 2) - 1) * CAPTION_HEIGHT L /\
    (2%nat = 1%nat -> totalHeight L == 1000 * (800 / 1000)).
Proof.
  apply (layout_heights first_image 1000 1000 2).
  - reflexivity.
  - reflexivity.
  - reflexivity.
  - reflexivity.
  - apply le_S, le_n.
Defined.

(** ** The first band *)



(** ** The later bands *)

(** C2.  The band of every iteration after the first has the caption
    band height; its image is placed at left 0 with equal scales and is
    clipped to exactly the rectangle of the band, left 0, top [topY],
    width 800, height [CAPTION_HEIGHT], in absolute coordinates, whatever
    the size of the image; and for an image of positive pixel size
    [w] x [h] the scale is [800 / w] and its top is
    [topY + CAPTION_HEIGHT - h * (800 / w)]. *)
Theorem later_band_clipped (env : Env) (L : Layout)
    (todo : list (FabricImage * ImageItem)) (bands : list Band) (r : M unit)
    (k : nat) (b : Band) :
  draw_loop env L 0 0 todo = (bands, r) ->
  nth_error bands k = Some b ->
  (0 < k)%nat ->
  exists img d io texts,
    nth_error todo k = Some (img, d) /\
    drawn b = ImageObj io :: map TextObj texts /\
    heightPx b = CAPTION_HEIGHT L /\
    img_left io = 0 /\
    scaleX io = scaleY io /\
    clipPath io = Some (mkRect 0 (topY b) 800 (CAPTION_HEIGHT L) true) /\
    (forall w h,
        width img = Some w -> height img = Some h -> 0 < w -> 0 < h ->
        scaleX io == 800 / w /\
        img_top io == topY b + CAPTION_HEIGHT L - h * (800 / w)).
Proof.
  intros HD Hb Hk.
  destruct (draw_loop_nth env L todo _ _ _ _ HD k b Hb) as (img & d & Hn & HB).
  cbn [Nat.add] in HB.
  destruct (loop_body_inv _ _ _ _ _ _ _ _ HB)
    as (io & Hp & _ & _ & Hh & _ & _ & Hd).
  assert (Hk0 : k <> O) by lia.
  rewrite (place_image_next env L k _ img Hk0) in Hp.
  destruct (clone env img) as [e|c]; [discriminate|].
  cbn zeta in Hp. inversion Hp as [[Hio Hcap]]. clear Hp.
  exists img, d, io. eexists.
  split; [exact Hn|]. split; [exact Hd|].
  split; [now rewrite Hh, <- Hcap|].
  rewrite <- Hio. cbn.
  repeat (split; [reflexivity|]).
  intros w h Hw Hhh Hw0 Hh0. rewrite Hw, Hhh.
  rewrite !or_default_some by lra.
  change CANVAS_WIDTH with 800. split; reflexivity.
Qed.

Lemma later_band_clipped_witness :
  exists bands r b img d io texts,
    draw_loop sample_env (mkLayout 800 120 920) 0 0 two_loaded = (bands, r) /\
    nth_error bands 1 = Some b /\
    nth_error two_loaded 1 = Some (img, d) /\
    drawn b = ImageObj io :: map TextObj texts /\
    clipPath io = Some (mkRect 0 (topY b) 800 120 true) /\
    scaleX io == 800 / 640 /\
    img_top io == topY b + 120 - 480 * (800 / 640).
Proof.
  destruct (draw_loop sample_env (mkLayout 800 120 920) 0 0 two_loaded)
    as [bands r] eqn:HD.
  assert (Hb : exists b, nth_error bands 1 = Some b).
  { pose proof HD as HD'. vm_compute in HD'. inversion HD'.
    eexists. reflexivity. }
  destruct Hb as [b Hb].
  destruct (later_band_clipped sample_env _ _ _ _ 1 b HD Hb (le_n 1))
    as (img & d & io & texts & Hn & Hd & _ & _ & _ & Hc & Hs).
  exists bands, r, b, img, d, io, texts.
  split; [reflexivity|]. split; [exact Hb|]. split; [exact Hn|].
  split; [exact Hd|]. split; [exact Hc|].
  vm_compute in Hn. inversion Hn; subst img d.
  apply (Hs 640 480); reflexivity.
Defined.

(** ** Tiling *)



(** ** Captions *)

Lemma texts_of_band (io : ImageObject) (l : list TextObject) :
  texts_of (ImageObj io :: map TextObj l) = l.
Proof.
  cbn [texts_of]. induction l as [|t l IH]; cbn; [reflexivity|].
  now rewrite IH.
Qed.

(** The texts of a band sit on its bottom edge. *)
Lemma band_texts (env : Env) (L : Layout)
      (todo : list (FabricImage * ImageItem)) (bands : list Band) (r : M unit)
      (k : nat) (b : Band) :
  draw_loop env L 0 0 todo = (bands, r) ->
  nth_error bands k = Some b ->
  exists io bottom,
    bottom == topY b + heightPx b /\
    heightPx b = band_height L k /\
    drawn b =
      ImageObj io ::
      map TextObj (zh_layers (caption (item b)) bottom ++
                   jp_layers (caption (item b)) bottom).
Proof.
  intros HD Hb.
  destruct (draw_loop_nth env L todo _ _ _ _ HD k b Hb) as (img & d & _ & HB).
  cbn [Nat.add] in HB.
  destruct (loop_body_inv _ _ _ _ _ _ _ _ HB)
    as (io & _ & _ & _ & Hh & Hi & _ & Hd).
  exists io, (section_bottom L k (topY b + heightPx b)).
  split; [rewrite Hh; apply section_bottom_after|].
  split; [exact Hh|]. now rewrite Hi.
Qed.

Lemma zh_layers_roles (c : Caption) (bottom : Q) :
  map role (zh_layers c bottom) =
  if truthy (zh c) then [Glow; WhiteFill] else [].
Proof. unfold zh_layers. now destruct (truthy (zh c)). Qed.

Lemma jp_layers_roles (c : Caption) (bottom : Q) :
  map role (jp_layers c bottom) = if truthy (jp c) then [Secondary] else [].
Proof. unfold jp_layers. now destruct (truthy (jp c)). Qed.

Lemma in_zh_layers (c : Caption) (bottom : Q) (t : TextObject) :
  In t (zh_layers c bottom) ->
  (role t = Glow \/ role t = WhiteFill) /\
  text t = zh c /\ text_left t = CANVAS_WIDTH / 2 /\
  originX t = "center"%string /\
  text_top t = bottom - (if truthy (jp c) then 65 else 55).
Proof.
  unfold zh_layers. destruct (truthy (zh c)); [|intros []].
  intros [<-|[<-|[]]]; cbn; repeat split; auto.
Qed.

Lemma in_jp_layers (c : Caption) (bottom : Q) (t : TextObject) :
  In t (jp_layers c bottom) ->
  role t = Secondary /\
  text t = jp c /\ text_left t = CANVAS_WIDTH / 2 /\
  originX t = "center"%string /\
  text_top t = bottom - 25.
Proof.
  unfold jp_layers. destruct (truthy (jp c)); [|intros []].
  intros [<-|[]]; cbn; repeat split.
Qed.

(** C3.  In every band each text is centred at [800 / 2]; the layers of
    the primary caption are placed at [bandBottom - 65] when the
    secondary caption is non-empty and at [bandBottom - 55] otherwise;
    the secondary caption is placed at [bandBottom - 25]; a non-empty
    caption does have its text in the band; and [bandBottom], the top of
    the band plus its height, is [firstImageHeight] for band 0. *)
Theorem caption_positions (env : Env) (L : Layout)
    (todo : list (FabricImage * ImageItem)) (bands : list Band) (r : M unit)
    (k : nat) (b : Band) :
  draw_loop env L 0 0 todo = (bands, r) ->
  nth_error bands k = Some b ->
  truthy (zh (caption (item b))) || truthy (jp (caption (item b))) = true ->
  let c := caption (item b) in
  let texts := texts_of (drawn b) in
  let bandBottom := topY b + heightPx b in
  (forall t, In t texts ->
             text_left t == 800 / 2 /\ originX t = "center"%string) /\
  (forall t, In t texts -> role t = Glow \/ role t = WhiteFill ->
             text_top t == bandBottom - (if truthy (jp c) then 65 else 55)) /\
  (forall t, In t texts -> role t = Secondary ->
             text_top t == bandBottom - 25) /\
  (truthy (zh c) = true ->
   exists t, In t texts /\ role t = WhiteFill /\ text t = zh c) /\
  (truthy (jp c) = true ->
   exists t, In t texts /\ role t = Secondary /\ text t = jp c) /\
  (k = O -> bandBottom == firstImageHeight L).
Proof.
  intros HD Hb _ c texts bandBottom.
  destruct (band_texts env L todo bands r k b HD Hb)
    as (io & bottom & Hbot & Hh & Hd).
  assert (Ht : texts = zh_layers c bottom ++ jp_layers c bottom).
  { unfold texts. rewrite Hd. apply texts_of_band. }
  rewrite Ht. clear Ht texts.
  split; [|split; [|split; [|split; [|split]]]].
  - intros t Ht. apply in_app_or in Ht. destruct Ht as [Ht|Ht].
    + destruct (in_zh_layers _ _ _ Ht) as (_ & _ & -> & -> & _).
      split; reflexivity.
    + destruct (in_jp_layers _ _ _ Ht) as (_ & _ & -> & -> & _).
      split; reflexivity.
  - intros t Ht Hr. apply in_app_or in Ht. destruct Ht as [Ht|Ht].
    + destruct (in_zh_layers _ _ _ Ht) as (_ & _ & _ & _ & ->).
      unfold bandBottom. rewrite Hbot. reflexivity.
    + destruct (in_jp_layers _ _ _ Ht) as (Hs & _).
      rewrite Hs in Hr. destruct Hr; discriminate.
  - intros t Ht Hr. apply in_app_or in Ht. destruct Ht as [Ht|Ht].
    + destruct (in_zh_layers _ _ _ Ht) as (Hs & _).
      rewrite Hr in Hs. destruct Hs; discriminate.
    + destruct (in_jp_layers _ _ _ Ht) as (_ & _ & _ & _ & ->).
      unfold bandBottom. rewrite Hbot. reflexivity.
  - intros Hz. unfold zh_layers. rewrite Hz.
    eexists. split; [right; left; reflexivity|]. split; reflexivity.
  - intros Hj. unfold jp_layers. rewrite Hj.
    eexists. split; [apply in_or_app; right; left; reflexivity|].
    split; reflexivity.
  - intros ->. unfold bandBottom.
    rewrite (draw_loop_first _ _ _ _ _ _ _ _ HD Hb), Hh.
    unfold band_height. cbn [Nat.eqb]. ring.
Qed.

(** C6.  A band whose captions are both empty has no text; a band with
    only the primary caption has exactly its two layers, the glow first
    and the white fill second, and no secondary text; and whenever the
    primary caption is non-empty its glow and white fill come first, in
    this order, followed by secondary text only.  The texts follow the
    image of the band in drawing order. *)
Theorem caption_layers_emitted (env : Env) (L : Layout)
    (todo : list (FabricImage * ImageItem)) (bands : list Band) (r : M unit)
    (k : nat) (b : Band) :
  draw_loop env L 0 0 todo = (bands, r) ->
  nth_error bands k = Some b ->
  let c := caption (item b) in
  let texts := texts_of (drawn b) in
  (exists io, drawn b = ImageObj io :: map TextObj texts) /\
  (truthy (zh c) = false -> truthy (jp c) = false -> texts = []) /\
  (truthy (zh c) = true -> truthy (jp c) = false ->
   map role texts = [Glow; WhiteFill] /\ map text texts = [zh c; zh c]) /\
  (truthy (zh c) = true ->
   exists rest,
     map role texts = Glow :: WhiteFill :: rest /\
     Forall (eq Secondary) rest).
Proof.
  intros HD Hb c texts.
  destruct (band_texts env L todo bands r k b HD Hb)
    as (io & bottom & _ & _ & Hd).
  assert (Ht : texts = zh_layers c bottom ++ jp_layers c bottom).
  { unfold texts. rewrite Hd. apply texts_of_band. }
  split; [exists io; now rewrite Ht|].
  rewrite Ht. clear Ht texts.
  split; [|split].
  - intros Hz Hj. unfold zh_layers, jp_layers. now rewrite Hz, Hj.
  - intros Hz Hj. unfold zh_layers, jp_layers. rewrite Hz, Hj.
    split; reflexivity.
  - intros Hz. rewrite map_app, zh_layers_roles, jp_layers_roles, Hz.
    eexists. split; [reflexivity|].
    destruct (truthy (jp c)); repeat constructor.
Qed.

Lemma caption_positions_witness :
  exists bands r b,
    draw_loop sample_env (mkLayout 800 120 920) 0 0 two_loaded = (bands, r) /\
    nth_error bands 1 = Some b /\
    (forall t, In t (texts_of (drawn b)) ->
               role t = Glow \/ role t = WhiteFill ->
               text_top t == topY b + heightPx b - 55) /\
    (exists t, In t (texts_of (drawn b)) /\ role t = WhiteFill /\
               text t = "zh"%string).
Proof.
  destruct (draw_loop sample_env (mkLayout 800 120 920) 0 0 two_loaded)
    as [bands r] eqn:HD.
  assert (Hb : exists b, nth_error bands 1 = Some b /\
                         caption (item b) = mkCaption "zh" EmptyString).
  { pose proof HD as HD'. vm_compute in HD'. inversion HD'.
    eexists. split; reflexivity. }
  destruct Hb as (b & Hb & Hc).
  assert (Hne : truthy (zh (caption (item b))) ||
                truthy (jp (caption (item b))) = true)
    by (rewrite Hc; reflexivity).
  pose proof (caption_positions sample_env _ _ _ _ 1 b HD Hb Hne) as H.
  cbv zeta in H. rewrite Hc in H.
  destruct H as (_ & Hp & _ & Hz & _).
  exists bands, r, b.
  split; [reflexivity|]. split; [exact Hb|]. split; [exact Hp|].
  apply Hz. reflexivity.
Defined.

Lemma caption_layers_emitted_witness :
  exists bands r b,
    draw_loop sample_env (mkLayout 800 120 920) 0 0 two_loaded = (bands, r) /\
    nth_error bands 1 = Some b /\
    map role (texts_of (drawn b)) = [Glow; WhiteFill] /\
    map text (texts_of (drawn b)) = ["zh"%string; "zh"%string].
Proof.
  destruct (draw_loop sample_env (mkLayout 800 120 920) 0 0 two_loaded)
    as [bands r] eqn:HD.
  assert (Hb : exists b, nth_error bands 1 = Some b /\
                         caption (item b) = mkCaption "zh" EmptyString).
  { pose proof HD as HD'. vm_compute in HD'. inversion HD'.
    eexists. split; reflexivity. }
  destruct Hb as (b & Hb & Hc).
  pose proof (caption_layers_emitted sample_env _ _ _ _ 1 b HD Hb) as H.
  cbv zeta in H. rewrite Hc in H.
  destruct H as (_ & _ & Hz & _).
  exists bands, r, b.
  split; [reflexivity|]. split; [exact Hb|].
  apply Hz; reflexivity.
Defined.

(** ** The state after [generatePreview] *)

Lemma nth_error_update (f : Canvas -> Canvas) (l : list Canvas) :
  forall (h : nat) (c : Canvas),
    nth_error l h = Some c -> nth_error (update h f l) h = Some (f c).
Proof.
  induction l as [|c0 l IH]; intros [|h] c H; try discriminate.
  - cbn in *. now inversion H.
  - cbn in *. now apply IH.
Qed.

Lemma nth_error_grown (l extra : list Canvas) (h : nat) (c : Canvas) :
  nth_error l h = Some c -> nth_error (l ++ extra) h = Some c.
Proof.
  intros H. rewrite nth_error_app1; [exact H|].
  apply nth_error_Some. congruence.
Qed.

Lemma nth_error_fresh (l : list Canvas) (c : Canvas) :
  nth_error (l ++ [c]) (List.length l) = Some c.
Proof.
  rewrite nth_error_app2 by apply le_n. now rewrite Nat.sub_diag.
Qed.

Lemma Promise_all_length {A : Type} (ps : list (JsError + A)) :
  forall l, Promise_all ps = inr l -> List.length l = List.length ps.
Proof.
  induction ps as [|[e|a] ps IH]; intros l H; cbn in H.
  - now inversion H.
  - discriminate.
  - destruct (Promise_all ps) as [e|l']; [discriminate|].
    inversion H. cbn. now rewrite (IH l' eq_refl).
Qed.

Lemma images_dispose_current (st : State) :
  images (dispose_current st) = images st.
Proof. unfold dispose_current. now destruct (fabricCanvasRef st). Qed.

(** [dispose_current] touches the heap only, and there only the canvas
    the ref points to. *)
Lemma dispose_current_disposes (st : State) (h : nat) (c : Canvas) :
  fabricCanvasRef st = Some h ->
  nth_error (heap st) h = Some c ->
  nth_error (heap (dispose_current st)) h = Some (dispose c).
Proof.
  intros Hr Hc. unfold dispose_current. rewrite Hr. cbn.
  now apply nth_error_update.
Qed.

Lemma dispose_current_frame (st : State) :
  previewUrl (dispose_current st) = previewUrl st /\
  isGenerating (dispose_current st) = isGenerating st /\
  console (dispose_current st) = console st /\
  timers (dispose_current st) = timers st /\
  fabricCanvasRef (dispose_current st) = fabricCanvasRef st.
Proof.
  unfold dispose_current. destruct (fabricCanvasRef st) eqn:E; cbn;
    repeat split; auto.
Qed.

(** The [try] block never reaches a division by zero. *)
Lemma try_block_never_nonfinite (env : Env) (st : State) :
  snd (try_block env st) <> NonFinite.
Proof.
  unfold try_block.
  destruct (Promise_all _) as [e|loadedImages]; [discriminate|].
  destruct (nth_error loadedImages 0) as [firstImage|]; [|discriminate].
  destruct (compute_layout_done firstImage
              (List.length (images (dispose_current st))))
    as (L & -> & _).
  pose proof (draw_loop_never_nonfinite env L
                (combine loadedImages
                   (images (set_fabricCanvasRef
                      (Some (List.length (heap (set_canvas_element
                         (mkCanvasElement CANVAS_WIDTH (totalHeight L))
                         (dispose_current st)))))
                      (set_canvas_element
                         (mkCanvasElement CANVAS_WIDTH (totalHeight L))
                         (dispose_current st))))) 0 0) as N.
  destruct (draw_loop env L 0 0 _) as [bands r].
  destruct r as [[]| |]; cbn in *; try discriminate. contradiction.
Qed.

(** The promise of [generatePreview] always resolves. *)
Lemma generatePreview_resolves (env : Env) (st : State) :
  exists st', generatePreview env st = Some (st', Resolved).
Proof.
  unfold generatePreview.
  destruct (Nat.eqb (List.length (images st)) 0); [now exists st|].
  destruct (canvasRef (setIsGenerating true st)); [|eexists; reflexivity].
  pose proof (try_block_never_nonfinite env (setIsGenerating true st)) as N.
  destruct (try_block env (setIsGenerating true st)) as [st' [[]| |]];
    cbn in N; try (eexists; reflexivity). contradiction.
Qed.

(** What a throwing [try] block leaves: the canvas that was current is
    disposed, and nothing but the heap, the ref and the canvas element
    has changed. *)
Lemma try_block_throw (env : Env) (st st' : State) (e : JsError) :
  try_block env st = (st', Throw e) ->
  previewUrl st' = previewUrl st /\
  isGenerating st' = isGenerating st /\
  console st' = console st /\
  timers st' = timers st /\
  exists extra, heap st' = heap (dispose_current st) ++ extra.
Proof.
  destruct (dispose_current_frame st) as (Hp & Hg & Hc & Ht & _).
  unfold try_block.
  destruct (Promise_all _) as [e0|loadedImages].
  { intros H. inversion H; subst. repeat (split; [assumption|]).
    exists []. now rewrite app_nil_r. }
  destruct (nth_error loadedImages 0) as [firstImage|].
  2:{ intros H. inversion H; subst. repeat (split; [assumption|]).
      exists []. now rewrite app_nil_r. }
  destruct (compute_layout_done firstImage
              (List.length (images (dispose_current st))))
    as (L & -> & _).
  destruct (draw_loop env L 0 0 _) as [bands r].
  destruct r as [[]| |]; intros H; inversion H; subst; cbn.
  repeat (split; [assumption|]). eexists. reflexivity.
Qed.

(** What a completed [try] block leaves. *)
Lemma try_block_success (env : Env) (st : State)
      (loadedImages : list FabricImage) :
  images st <> [] ->
  Promise_all (map (fun img => loadFabricImage env (url img)) (images st))
    = inr loadedImages ->
  (forall img, In img loadedImages -> exists c, clone env img = inr c) ->
  exists firstImage L bands,
    nth_error loadedImages 0 = Some firstImage /\
    compute_layout firstImage (List.length (images st)) = Done L /\
    draw_loop env L 0 0 (combine loadedImages (images st)) = (bands, Done tt) /\
    List.length bands = List.length (images st) /\
    try_block env st =
      (let st0 := dispose_current st in
       let h := List.length (heap st0) in
       let fabricCanvas :=
         renderAll (add (flat_map drawn bands)
                        (mkCanvas CANVAS_WIDTH (totalHeight L) "white" [] [] false)) in
       setTimeout (ReadbackPreview h) 100%Z
         (set_heap (heap st0 ++ [fabricCanvas])
            (set_fabricCanvasRef (Some h)
               (set_canvas_element
                  (mkCanvasElement CANVAS_WIDTH (totalHeight L)) st0))),
       Done tt).
Proof.
  intros Hne HP Hc.
  pose proof (Promise_all_length _ _ HP) as Hlen. rewrite length_map in Hlen.
  destruct (images st) as [|d0 ds] eqn:Hi; [contradiction|].
  destruct loadedImages as [|img0 imgs]; [discriminate|].
  destruct (compute_layout_done img0 (List.length (d0 :: ds)))
    as (L & HL & _).
  destruct (draw_loop_complete env L img0 d0 (combine imgs ds))
    as (bands & HD & Hb).
  { intros img d Hin. apply in_combine_l in Hin. apply Hc. now right. }
  exists img0, L, bands.
  split; [reflexivity|]. split; [exact HL|]. split; [exact HD|].
  split.
  { rewrite Hb, length_combine. cbn in Hlen. cbn. lia. }
  unfold try_block. rewrite images_dispose_current, Hi, HP.
  cbn [nth_error]. rewrite HL.
  cbn [images set_fabricCanvasRef set_canvas_element].
  rewrite images_dispose_current, Hi.
  change (combine (img0 :: imgs) (d0 :: ds))
    with ((img0, d0) :: combine imgs ds).
  rewrite HD. reflexivity.
Qed.

(** ** Empty input *)

(** C7, as the code has it.  With no items [generatePreview] returns at
    once: its promise resolves, nothing is thrown, and the state, the
    heap of canvases with it, is left as it was. *)
Theorem empty_input_returns (env : Env) (st : State) :
  images st = [] ->
  generatePreview env st = Some (st, Resolved) /\
  ~ fails_on_empty_input env st.
Proof.
  intros Hi. assert (H : generatePreview env st = Some (st, Resolved)).
  { unfold generatePreview. now rewrite Hi. }
  split; [exact H|].
  intros (st' & e & He & _). rewrite H in He. discriminate.
Qed.

Lemma empty_input_returns_witness :
  generatePreview sample_env (sample_state []) =
    Some (sample_state [], Resolved) /\
  ~ fails_on_empty_input sample_env (sample_state []).
Proof.
  apply (empty_input_returns sample_env (sample_state [])). reflexivity.
Defined.

(** C7, as stated, fails: on the empty list no [EmptyInputError] is
    raised. *)
Lemma empty_input_no_error :
  ~ fails_on_empty_input sample_env (sample_state []).
Proof.
  intros (st' & e & He & _). vm_compute in He. discriminate.
Qed.

(** ** Failing renders *)

(** A throwing [try] block is caught. *)
Lemma throw_caught (env : Env) (st : State) (e : JsError) :
  images st <> [] ->
  canvasRef st <> None ->
  snd (try_block env (setIsGenerating true st)) = Throw e ->
  exists st',
    generatePreview env st = Some (st', Resolved) /\
    previewUrl st' = previewUrl st /\
    timers st' = timers st /\
    isGenerating st' = false /\
    console st' = console st ++ [e] /\
    (forall h c,
        fabricCanvasRef st = Some h -> nth_error (heap st) h = Some c ->
        nth_error (heap st') h = Some (dispose c)).
Proof.
  intros Hne Hcv HT. unfold generatePreview.
  destruct (images st) as [|d0 ds] eqn:Hi; [contradiction|].
  cbn [List.length Nat.eqb].
  change (canvasRef (setIsGenerating true st)) with (canvasRef st).
  destruct (canvasRef st) as [el|]; [|contradiction].
  destruct (try_block env (setIsGenerating true st)) as [st1 r] eqn:TB.
  cbn in HT. subst r.
  destruct (try_block_throw _ _ _ _ TB) as (Hp & _ & Hc & Ht & extra & Hh).
  eexists. split; [reflexivity|]. cbn.
  split; [exact Hp|]. split; [exact Ht|]. split; [reflexivity|].
  split; [now rewrite Hc|].
  intros h c Hr Hn. rewrite Hh. apply nth_error_grown.
  now apply (dispose_current_disposes (setIsGenerating true st)).
Qed.

Lemma load_fails_throws (env : Env) (st : State) (e : JsError) :
  load_fails env st e -> snd (try_block env st) = Throw e.
Proof.
  unfold load_fails, try_block. rewrite images_dispose_current.
  now intros ->.
Qed.





(** ** Finalization *)

(** C9, as the code has it.  When every image loads and every clone
    succeeds, the canvas holds the objects of all bands and [renderAll]
    has painted exactly these when [generatePreview] is through; the
    preview is still the old one, and the readback waits in a timer of
    100 ms whose callback draws nothing: it publishes the PNG of that
    canvas and resets [isGenerating]. *)
Theorem readback_deferred (env : Env) (st : State)
    (loadedImages : list FabricImage) :
  images st <> [] ->
  canvasRef st <> None ->
  Promise_all (map (fun img => loadFabricImage env (url img)) (images st))
    = inr loadedImages ->
  (forall img, In img loadedImages -> exists c, clone env img = inr c) ->
  exists st' h fabricCanvas L bands,
    generatePreview env st = Some (st', Resolved) /\
    fabricCanvasRef st' = Some h /\
    nth_error (heap st') h = Some fabricCanvas /\
    draw_loop env L 0 0 (combine loadedImages (images st)) = (bands, Done tt) /\
    objects fabricCanvas = flat_map drawn bands /\
    painted fabricCanvas = objects fabricCanvas /\
    canvas_width fabricCanvas = 800 /\
    canvas_height fabricCanvas = totalHeight L /\
    backgroundColor fabricCanvas = "white"%string /\
    disposed fabricCanvas = false /\
    previewUrl st' = previewUrl st /\
    isGenerating st' = true /\
    timers st' = timers st ++ [mkTimer 100 (ReadbackPreview h)] /\
    ~ finalized_synchronously env st /\
    exists st'',
      run_callback (ReadbackPreview h) st' = Some st'' /\
      previewUrl st'' = toDataURL fabricCanvas /\
      isGenerating st'' = false /\
      heap st'' = heap st'.
Proof.
  intros Hne Hcv HP Hc.
  destruct (try_block_success env (setIsGenerating true st) loadedImages
              Hne HP Hc)
    as (img0 & L & bands & _ & _ & HD & _ & HT).
  destruct (dispose_current_frame (setIsGenerating true st))
    as (Hp & Hg & _ & Ht & _).
  assert (HG : generatePreview env st =
               Some (fst (try_block env (setIsGenerating true st)), Resolved)).
  { unfold generatePreview.
    destruct (images st) as [|d0 ds] eqn:Hi; [contradiction|].
    cbn [List.length Nat.eqb].
    change (canvasRef (setIsGenerating true st)) with (canvasRef st).
    destruct (canvasRef st) as [el|]; [|contradiction].
    now rewrite HT. }
  rewrite HT in HG. cbn [fst] in HG. cbv zeta in HG.
  eexists. eexists. eexists. exists L, bands.
  split; [exact HG|]. cbn.
  split; [reflexivity|].
  split; [apply nth_error_fresh|]. cbn.
  split; [exact HD|].
  repeat (split; [reflexivity|]).
  split; [exact Hp|]. split; [exact Hg|].
  split; [now rewrite Ht|].
  split.
  - intros (st1 & h1 & c1 & He & _ & _ & _ & Htm). rewrite HG in He.
    inversion He; subst st1. cbn in Htm. rewrite Ht in Htm. cbn in Htm.
    apply (f_equal (@List.length Timer)) in Htm.
    rewrite length_app in Htm. cbn in Htm. lia.
  - unfold run_callback. cbn [heap setTimeout set_heap].
    rewrite nth_error_fresh. eexists. split; [reflexivity|].
    cbn. repeat split.
Qed.

Lemma readback_deferred_witness :
  exists st' fabricCanvas,
    generatePreview sample_env (sample_state two_items)
      = Some (st', Resolved) /\
    nth_error (heap st') 0 = Some fabricCanvas /\
    painted fabricCanvas = objects fabricCanvas /\
    previewUrl st' = EmptyUrl /\
    timers st' = [mkTimer 100 (ReadbackPreview 0)] /\
    exists st'',
      run_callback (ReadbackPreview 0) st' = Some st'' /\
      previewUrl st'' = toDataURL fabricCanvas.
Proof.
  destruct (readback_deferred sample_env (sample_state two_items)
              [first_image; second_image])
    as (st' & h & cv & L & bands & H1 & H2 & H3 & _ & _ & H6 & _ & _ & _ & _
        & H11 & _ & H13 & _ & st'' & H15 & H16 & _).
  - discriminate.
  - discriminate.
  - reflexivity.
  - intros img _. exists img. reflexivity.
  - assert (Hh : h = 0%nat).
    { pose proof H1 as H1'. vm_compute in H1'. inversion H1' as [Hst].
      rewrite <- Hst in H2. cbn in H2. now inversion H2. }
    subst h. exists st', cv.
    split; [exact H1|]. split; [exact H3|]. split; [exact H6|].
    split; [exact H11|]. split; [exact H13|].
    exists st''. split; [exact H15|exact H16].
Defined.

(** C9, as stated, fails: when [generatePreview] is through, the preview
    has not been read back and a timer is pending. *)
Lemma readback_not_synchronous :
  ~ finalized_synchronously sample_env (sample_state two_items).
Proof.
  intros (st' & h & c & He & _ & _ & _ & Ht).
  vm_compute in He. inversion He as [Hst]. rewrite <- Hst in Ht.
  discriminate Ht.
Qed.

(** ** Totality *)

(** C10.  [x || d] replaces a missing or zero [x] by [d]; the layout of
    any first image is computed with the width replaced by 1 and the
    height by 600 in this way, and so are the scale and the top of every
    later image; and [generatePreview] has a result in every state,
    whatever the images: no division by zero is reached, and every number
    it computes is a rational. *)
Theorem layout_total :
  (forall d, or_default None d = d) /\
  (forall q d, q == 0 -> or_default (Some q) d = d) /\
  (forall x, ~ or_default x 1 == 0) /\
  (forall firstImage count,
      exists L,
        compute_layout firstImage count = Done L /\
        firstImageHeight L =
          or_default (height firstImage) 600 *
          (800 / or_default (width firstImage) 1)) /\
  (forall env L i y img clonedImg,
      i <> O -> clone env img = inr clonedImg ->
      exists io,
        place_image env L i y img = Done (io, CAPTION_HEIGHT L) /\
        scaleX io = 800 / or_default (width img) 1 /\
        img_top io =
          y + CAPTION_HEIGHT L -
          or_default (height img) 600 * (800 / or_default (width img) 1)) /\
  (forall env L y img,
      exists io,
        place_image env L 0 y img = Done (io, firstImageHeight L) /\
        scaleX io = 800 / or_default (width img) 1 /\
        scaleY io = firstImageHeight L / or_default (height img) 1) /\
  (forall env st, exists st', generatePreview env st = Some (st', Resolved)).
Proof.
  split; [reflexivity|].
  split; [exact or_default_falsy|].
  split; [intros x; apply or_default_nonzero, one_nonzero|].
  split.
  { intros firstImage count.
    destruct (compute_layout_done firstImage count) as (L & HL & Hf & _).
    exists L. split; [exact HL|exact Hf]. }
  split.
  { intros env L i y img c Hi Hc.
    rewrite (place_image_next env L i y img Hi), Hc.
    eexists. split; [reflexivity|]. split; reflexivity. }
  split.
  { intros env L y img. rewrite place_image_first.
    eexists. split; [reflexivity|]. split; reflexivity. }
  exact generatePreview_resolves.
Qed.

Lemma layout_total_witness :
  or_default (Some 0) 1 = 1 /\
  (exists L,
      compute_layout (mkFabricImage "blob:empty" (Some 0) None) 3 = Done L /\
      firstImageHeight L = 600 * (800 / 1)) /\
  (exists io,
      place_image sample_env (mkLayout 800 120 920) 1 800
        (mkFabricImage "blob:empty" None (Some 0)) = Done (io, 120) /\
      scaleX io = 800 / 1 /\
      img_top io = 800 + 120 - 600 * (800 / 1)).
Proof.
  destruct layout_total as (_ & H2 & _ & H4 & H5 & _ & _).
  split; [apply H2; reflexivity|]. split.
  - destruct (H4 (mkFabricImage "blob:empty" (Some 0) None) 3%nat)
      as (L & HL & Hf).
    exists L. split; [exact HL|exact Hf].
  - destruct (H5 sample_env (mkLayout 800 120 920) 1%nat 800
                 (mkFabricImage "blob:empty" None (Some 0))
                 (mkFabricImage "blob:empty" None (Some 0)))
      as (io & Hp & Hs & Ht).
    + discriminate.
    + reflexivity.
    + exists io. split; [exact Hp|]. split; [exact Hs|exact Ht].
Defined.

(** ** The scenarios of the specification *)

(** One image of 1000 x 600 and no captions: a canvas of 800 x 480 with
    the image alone. *)
Example scenario_single_image :
  exists c io,
    rendered_canvas sample_env
      (sample_state [sample_item "blob:wide" EmptyString EmptyString]) = Some c /\
    canvas_width c == 800 /\ canvas_height c == 480 /\
    objects c = [ImageObj io] /\ clipPath io = None.
Proof.
  eexists. eexists. split; [vm_compute; reflexivity|].
  repeat split.
Qed.

(** Two images, the first of 1000 x 1000, the second with a primary
    caption only: a canvas of 800 x 920, the two layers of the caption
    at 865. *)
Example scenario_two_images :
  exists c,
    rendered_canvas sample_env (sample_state two_items) = Some c /\
    canvas_height c == 920 /\
    map role (texts_of (objects c)) = [Glow; WhiteFill] /\
    Forall (fun t => text_top t == 865) (texts_of (objects c)).
Proof.
  eexists. split; [vm_compute; reflexivity|].
  split; [reflexivity|]. split; [reflexivity|].
  repeat constructor.
Qed.

(** Three images, the first tall (400 x 2000, rescaled to a height of
    4000): both caption bands have height 120. *)
Example scenario_tall_first_image :
  exists L bands,
    compute_layout (mkFabricImage "blob:tall" (Some 400) (Some 2000)) 3
      = Done L /\
    firstImageHeight L == 4000 /\ CAPTION_HEIGHT L == 120 /\
    totalHeight L == 4240 /\
    draw_loop sample_env L 0 0
      (combine [mkFabricImage "blob:tall" (Some 400) (Some 2000);
                first_image; second_image] three_items) = (bands, Done tt) /\
    Forall2 (fun b h => heightPx b == h) bands [4000; 120; 120] /\
    Forall2 (fun b y => topY b == y) bands [0; 4000; 4120] /\
    map (fun b => map role (texts_of (drawn b))) bands =
      [[]; [Glow; WhiteFill; Secondary]; [Secondary]].
Proof.
  eexists. eexists. split; [vm_compute; reflexivity|].
  do 3 (split; [reflexivity|]).
  split; [vm_compute; reflexivity|].
  split; [repeat constructor|].
  split; [repeat constructor|].
  reflexivity.
Qed.

(** ** More on the layout *)

(** X1.  Whatever the first image, its size missing or zero included,
    and whatever the number of items, the layout is computed and the
    caption band height lies between 80 and 120. *)
Theorem caption_band_height_clamped (firstImage : FabricImage) (count : nat) :
  exists L,
    compute_layout firstImage count = Done L /\
    80 <= CAPTION_HEIGHT L /\ CAPTION_HEIGHT L <= 120.
Proof.
  destruct (compute_layout_done firstImage count) as (L & HL & _).
  exists L. split; [exact HL|].
  apply (CAPTION_HEIGHT_bounds firstImage count L HL).
Qed.









(** ** The canvases across renders *)

Lemma length_update (f : Canvas -> Canvas) (l : list Canvas) :
  forall h, List.length (update h f l) = List.length l.
Proof.
  induction l as [|c l IH]; intros [|h]; cbn; auto.
Qed.


Lemma dispose_current_length (st : State) :
  List.length (heap (dispose_current st)) = List.length (heap st).
Proof.
  unfold dispose_current. destruct (fabricCanvasRef st); [|reflexivity].
  cbn. apply length_update.
Qed.







(** ** Renders that do not complete *)

(** X6.  When a load is rejected, no canvas is made: the heap keeps its
    length, [fabricCanvasRef] and the canvas element are as before, the
    item list is untouched, and the rejection is what the console gets. *)
Theorem load_failure_makes_no_canvas (env : Env) (st : State) (e : JsError) :
  images st <> [] ->
  canvasRef st <> None ->
  load_fails env st e ->
  exists st',
    generatePreview env st = Some (st', Resolved) /\
    List.length (heap st') = List.length (heap st) /\
    fabricCanvasRef st' = fabricCanvasRef st /\
    canvasRef st' = canvasRef st /\
    images st' = images st /\
    console st' = console st ++ [e].
Proof.
  intros Hne Hcv Hf.
  assert (TB : try_block env (setIsGenerating true st) =
               (dispose_current (setIsGenerating true st), Throw e)).
  { unfold load_fails in Hf. unfold try_block.
    rewrite images_dispose_current.
    change (images (setIsGenerating true st)) with (images st).
    now rewrite Hf. }
  unfold generatePreview.
  destruct (images st) as [|d0 ds] eqn:Hi; [contradiction|].
  cbn [List.length Nat.eqb].
  change (canvasRef (setIsGenerating true st)) with (canvasRef st).
  destruct (canvasRef st) as [el|] eqn:Hel; [|contradiction].
  rewrite TB. eexists. split; [reflexivity|].
  destruct (dispose_current_frame (setIsGenerating true st))
    as (_ & _ & Hc & _ & Hr).
  cbn [heap catch_block setIsGenerating console_error fabricCanvasRef
       canvasRef images console].
  split; [apply (dispose_current_length (setIsGenerating true st))|].
  split; [exact Hr|].
  split.
  { unfold dispose_current. cbn. destruct (fabricCanvasRef st); cbn; exact Hel. }
  split; [rewrite images_dispose_current; exact Hi|].
  now rewrite Hc.
Qed.

Lemma no_image_load_fails (env : Env) (items : list ImageItem) :
  (forall d, In d items -> exists o, fromURL env (url d) = inr o) ->
  (exists d, In d items /\ fromURL env (url d) = inr None) ->
  Promise_all (map (fun img => loadFabricImage env (url img)) items)
    = inl (PlainError "Error" "Failed to load image").
Proof.
  induction items as [|d ds IH]; intros Hall (d1 & Hin & Hnone).
  - destruct Hin.
  - cbn [map Promise_all]. unfold loadFabricImage at 1.
    destruct (Hall d (or_introl eq_refl)) as [o Ho]. rewrite Ho.
    destruct o as [img|]; [|reflexivity].
    rewrite IH; [reflexivity| |].
    + intros d' Hd'. apply Hall. now right.
    + destruct Hin as [<-|Hin]; [congruence|]. now exists d1.
Qed.

(** X7.  When no load is rejected but some source resolves without an
    image, the render stops before any canvas is made and the console
    gets the error "Failed to load image" of [loadFabricImage]. *)
Theorem missing_image_reported (env : Env) (st : State) :
  canvasRef st <> None ->
  (forall d, In d (images st) -> exists o, fromURL env (url d) = inr o) ->
  (exists d, In d (images st) /\ fromURL env (url d) = inr None) ->
  exists st',
    generatePreview env st = Some (st', Resolved) /\
    console st' = console st ++ [PlainError "Error" "Failed to load image"] /\
    List.length (heap st') = List.length (heap st) /\
    previewUrl st' = previewUrl st /\
    isGenerating st' = false /\
    timers st' = timers st.
Proof.
  intros Hcv Hall Hex.
  assert (Hne : images st <> []).
  { destruct Hex as (d & Hin & _). intros E. rewrite E in Hin. destruct Hin. }
  pose proof (no_image_load_fails env (images st) Hall Hex) as Hf.
  destruct (load_failure_makes_no_canvas env st _ Hne Hcv Hf)
    as (st' & HG & Hl & _ & _ & _ & Hc).
  destruct (throw_caught env st _ Hne Hcv
              (load_fails_throws env (setIsGenerating true st) _ Hf))
    as (st2 & HG2 & Hp & Ht & Hg & _).
  rewrite HG in HG2. inversion HG2; subst st2.
  exists st'. repeat (split; [assumption|]). exact Ht.
Qed.

Lemma missing_image_reported_witness :
  exists st',
    generatePreview null_image_env (sample_state two_items)
      = Some (st', Resolved) /\
    console st' = [PlainError "Error" "Failed to load image"] /\
    List.length (heap st') = 0%nat /\
    previewUrl st' = EmptyUrl /\
    isGenerating st' = false /\
    timers st' = [].
Proof.
  apply (missing_image_reported null_image_env (sample_state two_items)).
  - discriminate.
  - intros d _. exists None. reflexivity.
  - eexists. split; [left; reflexivity|reflexivity].
Defined.

Lemma load_failure_makes_no_canvas_witness :
  exists st',
    generatePreview null_image_env (sample_state two_items)
      = Some (st', Resolved) /\
    List.length (heap st') = 0%nat /\
    fabricCanvasRef st' = None /\
    canvasRef st' = Some (mkCanvasElement 300 150) /\
    images st' = two_items /\
    console st' = [PlainError "Error" "Failed to load image"].
Proof.
  apply (load_failure_makes_no_canvas null_image_env (sample_state two_items)).
  - discriminate.
  - discriminate.
  - reflexivity.
Defined.

(** X8.  With items but no canvas element behind [canvasRef],
    [generatePreview] returns right after raising [isGenerating]: nothing
    is scheduled or logged that would lower it again, so the page keeps
    showing the spinner and the generate button stays disabled. *)
Theorem missing_canvas_element_stalls (env : Env) (st : State) :
  images st <> [] ->
  canvasRef st = None ->
  exists st',
    generatePreview env st = Some (st', Resolved) /\
    isGenerating st' = true /\
    timers st' = timers st /\
    console st' = console st /\
    heap st' = heap st /\
    preview_panel st' = Spinner /\
    generate_button st' = Some true.
Proof.
  intros Hne Hcv. unfold generatePreview.
  destruct (images st) as [|d0 ds] eqn:Hi; [contradiction|].
  cbn [List.length Nat.eqb].
  change (canvasRef (setIsGenerating true st)) with (canvasRef st).
  rewrite Hcv. eexists. split; [reflexivity|].
  unfold preview_panel, generate_button. cbn. rewrite Hi. cbn.
  repeat split.
Qed.

Lemma missing_canvas_element_stalls_witness :
  exists st',
    generatePreview sample_env
      (mkState two_items EmptyUrl false None None [] [] [])
      = Some (st', Resolved) /\
    isGenerating st' = true /\
    timers st' = [] /\
    console st' = [] /\
    heap st' = [] /\
    preview_panel st' = Spinner /\
    generate_button st' = Some true.
Proof.
  apply (missing_canvas_element_stalls sample_env
           (mkState two_items EmptyUrl false None None [] [] [])).
  - discriminate.
  - reflexivity.
Defined.

(** ** Which image goes where *)

Lemma Promise_all_nth {A : Type} (ps : list (JsError + A)) :
  forall (l : list A) (k : nat) (a : A),
    Promise_all ps = inr l ->
    nth_error l k = Some a -> nth_error ps k = Some (inr a).
Proof.
  induction ps as [|[e|a0] ps IH]; intros l k a H Hk; cbn in H.
  - inversion H; subst. destruct k; discriminate.
  - discriminate.
  - destruct (Promise_all ps) as [e|l'] eqn:E; [discriminate|].
    inversion H; subst. destruct k as [|k].
    + cbn in Hk. now inversion Hk.
    + cbn in *. now apply (IH l').
Qed.

Lemma nth_error_combine_inv {A B : Type} (l1 : list A) :
  forall (l2 : list B) (k : nat) (a : A) (b : B),
    nth_error (combine l1 l2) k = Some (a, b) ->
    nth_error l1 k = Some a /\ nth_error l2 k = Some b.
Proof.
  induction l1 as [|x l1 IH]; intros [|y l2] [|k] a b H; cbn in H;
    try discriminate.
  - inversion H. split; reflexivity.
  - cbn. now apply IH.
Qed.

(** X9.  Band [k] of a render belongs to item [k] of the list: it
    carries that item (and so its captions), and its image is the one
    loaded from that item's URL, itself for the first band and its clone
    for a later one. *)
Theorem band_shows_its_item (env : Env) (st : State)
    (loadedImages : list FabricImage) (L : Layout)
    (bands : list Band) (r : M unit) (k : nat) (b : Band) :
  Promise_all (map (fun img => loadFabricImage env (url img)) (images st))
    = inr loadedImages ->
  draw_loop env L 0 0 (combine loadedImages (images st)) = (bands, r) ->
  nth_error bands k = Some b ->
  exists img io,
    index b = k /\
    nth_error (images st) k = Some (item b) /\
    fromURL env (url (item b)) = inr (Some img) /\
    hd_error (drawn b) = Some (ImageObj io) /\
    (k = O -> element io = img) /\
    ((0 < k)%nat -> clone env img = inr (element io)).
Proof.
  intros HP HD Hb.
  destruct (draw_loop_nth env L _ _ _ _ _ HD k b Hb) as (img & d & Hn & HB).
  cbn [Nat.add] in HB.
  destruct (loop_body_inv _ _ _ _ _ _ _ _ HB)
    as (io & Hp & Hi & _ & _ & Hit & _ & Hd).
  destruct (nth_error_combine_inv _ _ _ _ _ Hn) as [Hl Hd0].
  pose proof (Promise_all_nth _ _ _ _ HP Hl) as Hload.
  rewrite nth_error_map, Hd0 in Hload. cbn in Hload.
  inversion Hload as [Hload']. clear Hload.
  exists img, io. split; [exact Hi|]. rewrite Hit.
  split; [exact Hd0|]. split.
  { unfold loadFabricImage in Hload'.
    destruct (fromURL env (url d)) as [e|[i|]]; try discriminate.
    now inversion Hload'. }
  split; [now rewrite Hd|]. split.
  - intros ->. rewrite place_image_first in Hp. now inversion Hp.
  - intros Hk. rewrite place_image_next in Hp by lia.
    destruct (clone env img) as [e|c]; [discriminate|].
    cbn zeta in Hp. now inversion Hp.
Qed.

Lemma band_shows_its_item_witness :
  exists bands r b img io,
    draw_loop sample_env (mkLayout 800 120 920) 0 0
      (combine [first_image; second_image]
               (images (sample_state two_items))) = (bands, r) /\
    nth_error bands 1 = Some b /\
    nth_error two_items 1 = Some (item b) /\
    fromURL sample_env (url (item b)) = inr (Some img) /\
    hd_error (drawn b) = Some (ImageObj io) /\
    clone sample_env img = inr (element io).
Proof.
  destruct (draw_loop sample_env (mkLayout 800 120 920) 0 0
              (combine [first_image; second_image]
                       (images (sample_state two_items))))
    as [bands r] eqn:HD.
  assert (Hb : exists b, nth_error bands 1 = Some b).
  { pose proof HD as HD'. vm_compute in HD'. inversion HD'.
    eexists. reflexivity. }
  destruct Hb as [b Hb].
  destruct (band_shows_its_item sample_env (sample_state two_items)
              [first_image; second_image] _ bands r 1 b eq_refl HD Hb)
    as (img & io & _ & Hn & Hf & Hd & _ & Hc).
  exists bands, r, b, img, io.
  split; [reflexivity|]. split; [exact Hb|]. split; [exact Hn|].
  split; [exact Hf|]. split; [exact Hd|]. apply Hc, le_n.
Defined.

(** ** The preview and the item list *)

(** A completed render, in full. *)
Lemma generatePreview_success (env : Env) (st : State)
      (loadedImages : list FabricImage) :
  images st <> [] ->
  canvasRef st <> None ->
  Promise_all (map (fun img => loadFabricImage env (url img)) (images st))
    = inr loadedImages ->
  (forall img, In img loadedImages -> exists c, clone env img = inr c) ->
  exists L bands st' h fabricCanvas,
    draw_loop env L 0 0 (combine loadedImages (images st)) = (bands, Done tt) /\
    List.length bands = List.length (images st) /\
    generatePreview env st = Some (st', Resolved) /\
    images st' = images st /\
    heap st' = heap (dispose_current st) ++ [fabricCanvas] /\
    h = List.length (heap (dispose_current st)) /\
    fabricCanvasRef st' = Some h /\
    timers st' = timers st ++ [mkTimer 100 (ReadbackPreview h)] /\
    previewUrl st' = previewUrl st /\
    isGenerating st' = true /\
    fabricCanvas =
      renderAll (add (flat_map drawn bands)
                     (mkCanvas CANVAS_WIDTH (totalHeight L) "white" [] [] false)).
Proof.
  intros Hne Hcv HP Hc.
  destruct (try_block_success env (setIsGenerating true st) loadedImages
              Hne HP Hc)
    as (img0 & L & bands & _ & _ & HD & Hlen & HT).
  destruct (dispose_current_frame (setIsGenerating true st))
    as (Hp & Hg & _ & Ht & _).
  assert (E : dispose_current (setIsGenerating true st) =
              setIsGenerating true (dispose_current st)).
  { unfold dispose_current. cbn. now destruct (fabricCanvasRef st). }
  exists L, bands. eexists. eexists. eexists.
  split; [exact HD|]. split; [exact Hlen|]. split.
  { unfold generatePreview.
    destruct (images st) as [|d0 ds] eqn:Hi; [contradiction|].
    cbn [List.length Nat.eqb].
    change (canvasRef (setIsGenerating true st)) with (canvasRef st).
    destruct (canvasRef st) as [el|]; [|contradiction].
    rewrite HT. reflexivity. }
  cbn. rewrite images_dispose_current, E. cbn.
  split; [reflexivity|]. split; [reflexivity|]. split; [reflexivity|].
  split; [reflexivity|].
  rewrite E in Ht, Hp. cbn in Ht, Hp.
  split; [now rewrite Ht|]. split; [exact Hp|]. split; reflexivity.
Qed.

(** ** Object URLs and the item list *)

Lemma two_distinct_members {A : Type} (l : list A) (a b : A) :
  In a l -> In b l -> a <> b -> (2 <= List.length l)%nat.
Proof.
  destruct l as [|x [|y l]]; cbn; intros Ha Hb Hab.
  - destruct Ha.
  - destruct Ha as [<-|[]]. destruct Hb as [<-|[]]. now contradiction Hab.
  - lia.
Qed.

Lemma filter_all {A : Type} (p : A -> bool) (l : list A) :
  (forall x, In x l -> p x = true) -> filter p l = l.
Proof.
  induction l as [|x l IH]; intros H; [reflexivity|].
  cbn. rewrite (H x (or_introl eq_refl)), IH; [reflexivity|].
  intros y Hy. apply H. now right.
Qed.

Lemma find_snoc_fresh {A : Type} (p : A -> bool) (l : list A) (x : A) :
  (forall y, In y l -> p y = false) -> p x = true ->
  find p (l ++ [x]) = Some x.
Proof.
  induction l as [|y l IH]; intros H Hx; cbn.
  - now rewrite Hx.
  - rewrite (H y (or_introl eq_refl)). apply IH; [|exact Hx].
    intros z Hz. apply H. now right.
Qed.

Lemma in_images_setImages (l : list ImageItem) (st : State) :
  images (setImages l st) = l.
Proof. reflexivity. Qed.

Lemma upload_file_images (sup : Supply) (app : App) (file : File) :
  exists added,
    images (component (upload_file sup app file)) =
      images (component app) ++ added /\
    objectURLs (upload_file sup app file) = objectURLs app ++ map url added /\
    issued (upload_file sup app file) = (issued app + List.length added)%nat /\
    added =
      (if is_image_file file then
         [mkImageItem (new_id sup (issued app)) (new_url sup (issued app))
                      (mkCaption EmptyString EmptyString) None]
       else []) /\
    previewUrl (component (upload_file sup app file)) =
      previewUrl (component app) /\
    showCopyModal (upload_file sup app file) = showCopyModal app.
Proof.
  unfold upload_file, is_image_file.
  destruct (String.prefix "image/" (file_type file)).
  - eexists. split; [reflexivity|]. cbn.
    split; [reflexivity|]. split; [lia|]. repeat split.
  - exists []. cbn. rewrite !app_nil_r.
    split; [reflexivity|]. split; [reflexivity|]. split; [lia|].
    repeat split.
Qed.

Lemma upload_file_keeps_live (sup : Supply) (app : App) (file : File) :
  urls_live app -> urls_live (upload_file sup app file).
Proof.
  intros Inv img Hin.
  destruct (upload_file_images sup app file)
    as (added & Hi & Hu & _ & Ha & _).
  rewrite Hi in Hin. rewrite Hu. apply in_or_app.
  apply in_app_or in Hin. destruct Hin as [Hin|Hin].
  - left. now apply Inv.
  - right. now apply in_map.
Qed.

Lemma handleImageUpload_keeps_live (sup : Supply) (fs : list File) :
  forall app, urls_live app -> urls_live (fold_left (upload_file sup) fs app).
Proof.
  induction fs as [|f fs IH]; intros app Inv; [exact Inv|].
  cbn. apply IH. now apply upload_file_keeps_live.
Qed.

Lemma removeImage_images (id0 : string) (app : App) :
  images (component (removeImage id0 app)) =
  filter (fun img => negb (String.eqb (id img) id0)) (images (component app)).
Proof. reflexivity. Qed.

(** Which URL [removeImage] revokes, if any. *)
Lemma removeImage_urls (id0 : string) (app : App) :
  objectURLs (removeImage id0 app) = objectURLs app \/
  exists r,
    find (fun img => String.eqb (id img) id0) (images (component app)) = Some r /\
    List.length (filter (fun img => String.eqb (url img) (url r))
                        (images (component app))) = 1%nat /\
    objectURLs (removeImage id0 app) = revokeObjectURL (url r) (objectURLs app).
Proof.
  unfold removeImage. cbn [objectURLs].
  destruct (find _ (images (component app))) as [r|]; [|now left].
  destruct (Nat.eqb _ 1) eqn:E; [|now left].
  right. exists r. apply Nat.eqb_eq in E. repeat split. exact E.
Qed.

(** X10.  No handler of the item list takes a URL away from an item that
    is still shown: if every item's URL is held by the browser, it is so
    after an upload, after copying an item of the list, after a caption
    edit and after a removal; a removal revokes a URL only when no
    remaining item uses it. *)
Theorem handlers_keep_urls_live (sup : Supply) (app : App) :
  urls_live app ->
  (forall files, urls_live (handleImageUpload sup files app)) /\
  (forall o, In o (images (component app)) ->
             urls_live (copyImage sup o app)) /\
  (forall id0 lang value, urls_live (updateCaption id0 lang value app)) /\
  (forall id0, urls_live (removeImage id0 app)).
Proof.
  intros Inv. split; [|split; [|split]].
  - intros [fs|]; [|exact Inv]. now apply handleImageUpload_keeps_live.
  - intros o Ho img Hin. cbn in Hin. apply in_app_or in Hin.
    destruct Hin as [Hin|[<-|[]]]; cbn; now apply Inv.
  - intros id0 lang value img Hin. cbn in Hin.
    apply in_map_iff in Hin. destruct Hin as (img0 & <- & Hin0).
    cbn. destruct (String.eqb (id img0) id0); cbn; now apply Inv.
  - intros id0 img Hin. rewrite removeImage_images in Hin.
    apply filter_In in Hin. destruct Hin as [Hin Hid].
    destruct (removeImage_urls id0 app) as [->|(r & Hf & Hc & ->)];
      [now apply Inv|].
    unfold revokeObjectURL. apply filter_In. split; [now apply Inv|].
    apply negb_true_iff, String.eqb_neq. intros Hu.
    apply find_some in Hf. destruct Hf as [Hr Hrid].
    assert (Hne : img <> r).
    { intros ->. rewrite Hrid in Hid. discriminate. }
    assert (H2 : (2 <= List.length
                    (filter (fun i => String.eqb (url i) (url r))
                            (images (component app))))%nat).
    { apply (two_distinct_members _ img r).
      - apply filter_In. split; [exact Hin|]. now apply String.eqb_eq.
      - apply filter_In. split; [exact Hr|]. apply String.eqb_refl.
      - exact Hne. }
    lia.
Qed.

Lemma handlers_keep_urls_live_witness :
  urls_live (removeImage "blob:first" (copyImage sample_supply
               (sample_item "blob:first" EmptyString EmptyString) sample_app)).
Proof.
  assert (H0 : urls_live sample_app).
  { intros img [<-|[<-|[]]]; cbn; auto. }
  destruct (handlers_keep_urls_live sample_supply sample_app H0)
    as (_ & Hc & _ & _).
  assert (H1 : urls_live (copyImage sample_supply
                 (sample_item "blob:first" EmptyString EmptyString) sample_app)).
  { apply Hc. left. reflexivity. }
  destruct (handlers_keep_urls_live sample_supply _ H1) as (_ & _ & _ & Hr).
  apply Hr.
Defined.

Lemma same_id_same_item (l : list ImageItem) (a b : ImageItem) :
  NoDup (map id l) -> In a l -> In b l -> id a = id b -> a = b.
Proof.
  induction l as [|x l IH]; intros Hn Ha Hb E; [destruct Ha|].
  cbn in Hn. apply NoDup_cons_iff in Hn. destruct Hn as [Hx Hn].
  destruct Ha as [->|Ha], Hb as [->|Hb].
  - reflexivity.
  - exfalso. apply Hx. rewrite E. now apply in_map.
  - exfalso. apply Hx. rewrite <- E. now apply in_map.
  - now apply IH.
Qed.

(** Dropping items keeps the ids different. *)
Lemma filter_keeps_unique_ids (keep : ImageItem -> bool) :
  forall items : list ImageItem,
    NoDup (map id items) -> NoDup (map id (filter keep items)).
Proof.
  intros items. induction items as [|x items IH]; intros Hn; [constructor|].
  cbn in Hn. apply NoDup_cons_iff in Hn. destruct Hn as [Hx Hn].
  cbn. destruct (keep x); [|now apply IH].
  cbn. constructor; [|now apply IH].
  intros Hin. apply Hx. apply in_map_iff in Hin.
  destruct Hin as (y & <- & Hy). apply in_map.
  now apply filter_In in Hy.
Qed.

(** A list without duplicate ids that has two entries has an entry with
    an id other than a given one. *)
Lemma other_member (l : list ImageItem) (a : ImageItem) :
  NoDup (map id l) -> (2 <= List.length l)%nat ->
  exists b, In b l /\ id b <> id a.
Proof.
  destruct l as [|x [|y l]]; cbn; intros Hn Hl; try lia.
  apply NoDup_cons_iff in Hn. destruct Hn as [Hx _].
  destruct (String.eqb (id x) (id a)) eqn:E.
  - apply String.eqb_eq in E. exists y. split; [right; now left|].
    intros Hy. apply Hx. left. congruence.
  - apply String.eqb_neq in E. exists x. split; [now left|exact E].
Qed.

(** X11.  With ids that are all different, a removal leaves no URL
    behind: if every URL the browser holds is shown by some item, it is
    so after [removeImage], and the ids are still all different. *)
Theorem removeImage_leaves_no_url_unused (id0 : string) (app : App) :
  unique_ids app ->
  urls_used app ->
  urls_used (removeImage id0 app) /\ unique_ids (removeImage id0 app).
Proof.
  intros Hu Inv. split.
  2:{ unfold unique_ids. rewrite removeImage_images.
      now apply filter_keeps_unique_ids. }
  intros u Hin. rewrite removeImage_images.
  set (l := images (component app)) in *.
  assert (Hold : In u (objectURLs app)).
  { destruct (removeImage_urls id0 app) as [E|(r & _ & _ & E)];
      rewrite E in Hin; [exact Hin|].
    unfold revokeObjectURL in Hin. now apply filter_In in Hin. }
  destruct (Inv u Hold) as (img & Himg & Hurl).
  destruct (String.eqb (id img) id0) eqn:Eid.
  2:{ exists img. split; [|exact Hurl]. apply filter_In.
      split; [exact Himg|]. now rewrite Eid. }
  apply String.eqb_eq in Eid.
  (* [img] is the item removed; some other item must show [u] *)
  unfold removeImage in Hin. cbn [objectURLs] in Hin. fold l in Hin.
  destruct (find (fun i => String.eqb (id i) id0) l) as [r|] eqn:Hf.
  2:{ pose proof (find_none _ _ Hf img Himg) as Hno. cbn in Hno.
      rewrite Eid, String.eqb_refl in Hno. discriminate. }
  pose proof (find_some _ _ Hf) as [Hr Hrid]. apply String.eqb_eq in Hrid.
  assert (Hir : img = r)
    by (apply (same_id_same_item l); [exact Hu|exact Himg|exact Hr|congruence]).
  subst img.
  destruct (Nat.eqb _ 1) eqn:Ec.
  { unfold revokeObjectURL in Hin. apply filter_In in Hin.
    destruct Hin as [_ Hne]. rewrite Hurl, String.eqb_refl in Hne.
    discriminate. }
  apply Nat.eqb_neq in Ec.
  set (same := filter (fun i => String.eqb (url i) (url r)) l) in *.
  assert (Hrs : In r same).
  { apply filter_In. split; [exact Hr|apply String.eqb_refl]. }
  assert (H2 : (2 <= List.length same)%nat).
  { destruct same as [|x [|y s]]; cbn in *; [destruct Hrs|lia|lia]. }
  destruct (other_member same r (filter_keeps_unique_ids _ _ Hu) H2)
    as (b & Hb & Hbid).
  apply filter_In in Hb. destruct Hb as [Hbl Hbu].
  apply String.eqb_eq in Hbu.
  exists b. split; [|congruence].
  apply filter_In. split; [exact Hbl|].
  apply negb_true_iff, String.eqb_neq. congruence.
Qed.

Lemma removeImage_leaves_no_url_unused_witness :
  urls_used (removeImage "blob:first" sample_app) /\
  unique_ids (removeImage "blob:first" sample_app).
Proof.
  apply (removeImage_leaves_no_url_unused "blob:first" sample_app).
  - repeat constructor; cbn; intuition discriminate.
  - intros u [<-|[<-|[]]].
    + exists (sample_item "blob:first" EmptyString EmptyString).
      split; [left; reflexivity|reflexivity].
    + exists (sample_item "blob:second" "zh" EmptyString).
      split; [right; left; reflexivity|reflexivity].
Defined.

Lemma NoDup_snoc {A : Type} (l : list A) (x : A) :
  NoDup l -> ~ In x l -> NoDup (l ++ [x]).
Proof.
  intros Hl Hx. apply NoDup_app; [exact Hl|repeat constructor; intros []|].
  intros a Ha [<-|[]]. contradiction.
Qed.

Lemma issued_fresh (sup : Supply) (app : App) :
  (forall m n, new_id sup m = new_id sup n -> m = n) ->
  ids_issued sup app ->
  ~ In (new_id sup (issued app)) (map id (images (component app))).
Proof.
  intros Hinj Hi Hin. apply in_map_iff in Hin.
  destruct Hin as (img & E & Himg).
  destruct (Hi img Himg) as (n & Hn & En).
  rewrite En in E. apply Hinj in E. lia.
Qed.

Lemma upload_file_keeps_ids (sup : Supply) (app : App) (file : File) :
  (forall m n, new_id sup m = new_id sup n -> m = n) ->
  unique_ids app -> ids_issued sup app ->
  unique_ids (upload_file sup app file) /\
  ids_issued sup (upload_file sup app file).
Proof.
  intros Hinj Hu Hi. pose proof (issued_fresh sup app Hinj Hi) as Hf.
  unfold upload_file.
  destruct (String.prefix "image/" (file_type file)); [|now split].
  split.
  - unfold unique_ids. cbn. rewrite map_app. now apply NoDup_snoc.
  - intros img Hin. cbn in Hin. apply in_app_or in Hin.
    destruct Hin as [Hin|[<-|[]]]; cbn.
    + destruct (Hi img Hin) as (n & Hn & En). exists n. split; [lia|exact En].
    + exists (issued app). split; [lia|reflexivity].
Qed.

(** X12.  As long as the supply never hands out the same id twice, the
    ids of the list stay all different, and all among those handed out,
    under every handler: upload, copy, caption edit and removal. *)
Theorem fresh_ids_stay_unique (sup : Supply) (app : App) :
  (forall m n, new_id sup m = new_id sup n -> m = n) ->
  unique_ids app -> ids_issued sup app ->
  (forall files,
      unique_ids (handleImageUpload sup files app) /\
      ids_issued sup (handleImageUpload sup files app)) /\
  (forall o,
      unique_ids (copyImage sup o app) /\
      ids_issued sup (copyImage sup o app)) /\
  (forall id0 lang value,
      unique_ids (updateCaption id0 lang value app) /\
      ids_issued sup (updateCaption id0 lang value app)) /\
  (forall id0,
      unique_ids (removeImage id0 app) /\
      ids_issued sup (removeImage id0 app)).
Proof.
  intros Hinj Hu Hi. split; [|split; [|split]].
  - intros [fs|]; [|now split]. cbn. revert app Hu Hi.
    induction fs as [|f fs IH]; intros app Hu Hi; [now split|].
    cbn. destruct (upload_file_keeps_ids sup app f Hinj Hu Hi) as [Hu' Hi'].
    now apply IH.
  - intros o. pose proof (issued_fresh sup app Hinj Hi) as Hf. split.
    + unfold unique_ids. cbn. rewrite map_app. now apply NoDup_snoc.
    + intros img Hin. cbn in Hin. apply in_app_or in Hin.
      destruct Hin as [Hin|[<-|[]]]; cbn.
      * destruct (Hi img Hin) as (n & Hn & En).
        exists n. split; [lia|exact En].
      * exists (issued app). split; [lia|reflexivity].
  - intros id0 lang value.
    assert (E : map id (images (component (updateCaption id0 lang value app)))
                = map id (images (component app))).
    { cbn. rewrite map_map. apply map_ext. intros img.
      now destruct (String.eqb (id img) id0). }
    split.
    + unfold unique_ids. now rewrite E.
    + intros img Hin. cbn in Hin. apply in_map_iff in Hin.
      destruct Hin as (img0 & <- & Hin0).
      destruct (Hi img0 Hin0) as (n & Hn & En).
      exists n. split; [exact Hn|].
      now destruct (String.eqb (id img0) id0).
  - intros id0. split.
    + unfold unique_ids. rewrite removeImage_images.
      now apply filter_keeps_unique_ids.
    + intros img Hin. rewrite removeImage_images in Hin.
      apply filter_In in Hin. destruct Hin as [Hin _].
      exact (Hi img Hin).
Qed.

Lemma tally_inj : forall m n, tally m = tally n -> m = n.
Proof.
  induction m as [|m IH]; intros [|n] H; cbn in H; try discriminate.
  - reflexivity.
  - inversion H. f_equal. now apply IH.
Qed.

Lemma sample_supply_inj :
  forall m n, new_id sample_supply m = new_id sample_supply n -> m = n.
Proof.
  intros m n H. cbn in H. inversion H. now apply tally_inj.
Qed.

Lemma fresh_ids_stay_unique_witness :
  unique_ids (handleImageUpload sample_supply
                (Some [png_file; text_file; png_file]) empty_app) /\
  ids_issued sample_supply
    (handleImageUpload sample_supply
       (Some [png_file; text_file; png_file]) empty_app).
Proof.
  destruct (fresh_ids_stay_unique sample_supply empty_app sample_supply_inj)
    as (Hup & _).
  - constructor.
  - intros img [].
  - apply Hup.
Defined.

(** ** Removing, copying and uploading, one after the other *)

(** X13.  Removing an id that no item has changes neither the list nor
    the URLs held, yet it clears the preview all the same, so that the
    download button goes away. *)
Theorem removeImage_unknown_id (id0 : string) (app : App) :
  (forall img, In img (images (component app)) -> id img <> id0) ->
  images (component (removeImage id0 app)) = images (component app) /\
  objectURLs (removeImage id0 app) = objectURLs app /\
  previewUrl (component (removeImage id0 app)) = EmptyUrl /\
  download_button (component (removeImage id0 app)) = false.
Proof.
  intros Hno.
  assert (Hf : find (fun img => String.eqb (id img) id0)
                    (images (component app)) = None).
  { destruct (find _ (images (component app))) as [r|] eqn:E; [|reflexivity].
    apply find_some in E. destruct E as [Hr Hid].
    apply String.eqb_eq in Hid. now apply Hno in Hr. }
  split.
  { rewrite removeImage_images. apply filter_all. intros img Hin.
    apply negb_true_iff, String.eqb_neq. now apply Hno. }
  split.
  { unfold removeImage. cbn [objectURLs]. now rewrite Hf. }
  split; [reflexivity|].
  unfold download_button. cbn. apply andb_false_r.
Qed.

Lemma removeImage_unknown_id_witness :
  images (component (removeImage "nobody" sample_app)) = two_items /\
  objectURLs (removeImage "nobody" sample_app) =
    ["blob:first"; "blob:second"]%string /\
  previewUrl (component (removeImage "nobody" sample_app)) = EmptyUrl /\
  download_button (component (removeImage "nobody" sample_app)) = false.
Proof.
  apply (removeImage_unknown_id "nobody" sample_app).
  intros img [<-|[<-|[]]]; discriminate.
Defined.

Lemma copyImage_images (sup : Supply) (o : ImageItem) (app : App) :
  images (component (copyImage sup o app)) =
  images (component app) ++
  [mkImageItem (new_id sup (issued app)) (url o)
               (mkCaption (zh (caption o)) (jp (caption o)))
               (Some (or_string (originalId o) (id o)))].
Proof. reflexivity. Qed.

(** X14.  Copying an item of the list and then removing the copy gives
    the list back and revokes nothing, provided the id of the copy is
    new to the list: the URL is still in use by the item copied. *)
Theorem copy_then_remove (sup : Supply) (o : ImageItem) (app : App) :
  In o (images (component app)) ->
  (forall img, In img (images (component app)) ->
               id img <> new_id sup (issued app)) ->
  images (component (removeImage (new_id sup (issued app))
                                 (copyImage sup o app)))
    = images (component app) /\
  objectURLs (removeImage (new_id sup (issued app)) (copyImage sup o app))
    = objectURLs app.
Proof.
  intros Ho Hfresh.
  set (nid := new_id sup (issued app)).
  set (c := mkImageItem nid (url o)
              (mkCaption (zh (caption o)) (jp (caption o)))
              (Some (or_string (originalId o) (id o)))).
  set (l := images (component app)) in *.
  split.
  - rewrite removeImage_images, copyImage_images. fold l nid c.
    rewrite filter_app. cbn [filter id]. rewrite String.eqb_refl. cbn.
    rewrite app_nil_r. apply filter_all. intros img Hin.
    apply negb_true_iff, String.eqb_neq. now apply Hfresh.
  - destruct (removeImage_urls nid (copyImage sup o app))
      as [E|(r & Hf & Hc & _)]; [exact E|exfalso].
    rewrite copyImage_images in Hf, Hc. fold l nid c in Hf, Hc.
    rewrite (find_snoc_fresh _ l c) in Hf.
    + inversion Hf; subst r. clear Hf.
      rewrite filter_app, length_app in Hc. cbn in Hc.
      rewrite String.eqb_refl in Hc. cbn in Hc.
      assert (Hin : In o (filter (fun img => String.eqb (url img) (url o)) l)).
      { apply filter_In. split; [exact Ho|apply String.eqb_refl]. }
      destruct (filter (fun img => String.eqb (url img) (url o)) l);
        [destruct Hin|cbn in Hc; lia].
    + intros y Hy. apply String.eqb_neq. now apply Hfresh.
    + cbn. apply String.eqb_refl.
Qed.

Lemma copy_then_remove_witness :
  images (component (removeImage (new_id sample_supply 0)
                       (copyImage sample_supply
                          (sample_item "blob:first" EmptyString EmptyString)
                          sample_app)))
    = two_items /\
  objectURLs (removeImage (new_id sample_supply 0)
                (copyImage sample_supply
                   (sample_item "blob:first" EmptyString EmptyString)
                   sample_app))
    = ["blob:first"; "blob:second"]%string.
Proof.
  apply (copy_then_remove sample_supply
           (sample_item "blob:first" EmptyString EmptyString) sample_app).
  - left. reflexivity.
  - intros img [<-|[<-|[]]]; discriminate.
Defined.

(** X15.  Uploading one image file and then removing the new item gives
    the list back and revokes the URL made for it, so that the URLs held
    are those held before, provided the id is new to the list and the
    URL new to the list and to the URLs held. *)
Theorem upload_then_remove (sup : Supply) (file : File) (app : App) :
  is_image_file file = true ->
  (forall img, In img (images (component app)) ->
               id img <> new_id sup (issued app) /\
               url img <> new_url sup (issued app)) ->
  ~ In (new_url sup (issued app)) (objectURLs app) ->
  images (component (removeImage (new_id sup (issued app))
                       (handleImageUpload sup (Some [file]) app)))
    = images (component app) /\
  objectURLs (removeImage (new_id sup (issued app))
                (handleImageUpload sup (Some [file]) app))
    = objectURLs app.
Proof.
  intros Himg Hfresh Hurl.
  set (nid := new_id sup (issued app)).
  set (nurl := new_url sup (issued app)).
  set (c := mkImageItem nid nurl (mkCaption EmptyString EmptyString) None).
  set (l := images (component app)) in *.
  assert (E : handleImageUpload sup (Some [file]) app =
              mkApp (setImages (l ++ [c]) (component app))
                    (showCopyModal app) (objectURLs app ++ [nurl])
                    (alerts app) (downloads app) (S (issued app))).
  { cbn. unfold upload_file. unfold is_image_file in Himg. now rewrite Himg. }
  rewrite E. clear E. split.
  - rewrite removeImage_images. cbn [component images setImages].
    rewrite filter_app. cbn [filter id]. rewrite String.eqb_refl. cbn.
    rewrite app_nil_r. apply filter_all. intros img Hin.
    apply negb_true_iff, String.eqb_neq. now apply Hfresh.
  - unfold removeImage. cbn [component images setImages objectURLs].
    rewrite (find_snoc_fresh _ l c).
    + rewrite filter_app, length_app. cbn [filter url c].
      rewrite String.eqb_refl. cbn [List.length].
      rewrite (proj2 (List.length_zero_iff_nil _)).
      * cbn. unfold revokeObjectURL. rewrite filter_app. cbn.
        rewrite String.eqb_refl. cbn. rewrite app_nil_r.
        apply filter_all. intros u Hu.
        apply negb_true_iff, String.eqb_neq. intros ->. contradiction.
      * destruct (filter _ l) as [|x s] eqn:F; [reflexivity|exfalso].
        assert (Hx : In x (filter (fun img => String.eqb (url img) nurl) l))
          by (rewrite F; now left).
        apply filter_In in Hx. destruct Hx as [Hx Hu].
        apply String.eqb_eq in Hu. now apply (proj2 (Hfresh x Hx)).
    + intros y Hy. apply String.eqb_neq. now apply Hfresh.
    + cbn. apply String.eqb_refl.
Qed.

Lemma upload_then_remove_witness :
  images (component (removeImage (new_id sample_supply 0)
                       (handleImageUpload sample_supply (Some [png_file])
                                          sample_app)))
    = two_items /\
  objectURLs (removeImage (new_id sample_supply 0)
                (handleImageUpload sample_supply (Some [png_file]) sample_app))
    = ["blob:first"; "blob:second"]%string.
Proof.
  apply (upload_then_remove sample_supply png_file sample_app).
  - reflexivity.
  - intros img [<-|[<-|[]]]; split; discriminate.
  - intros [H|[H|[]]]; discriminate.
Defined.

(** ** Caption edits *)

Lemma updateCaption_images (id0 : string) (lang : Lang) (value : string)
      (app : App) :
  images (component (updateCaption id0 lang value app)) =
  map (fun img =>
         if String.eqb (id img) id0 then
           mkImageItem (id img) (url img)
                       (set_caption lang value (caption img)) (originalId img)
         else img)
      (images (component app)).
Proof. reflexivity. Qed.

(** X16.  A caption edit keeps the list in place: the ids, URLs and
    origins are as before, position by position; every item with the
    given id then has the value under the given key; its other caption,
    and every item with another id, is untouched; an id that no item has
    changes nothing at all; and the preview is not cleared. *)
Theorem updateCaption_sets_caption (id0 : string) (lang : Lang)
    (value : string) (app : App) :
  let app' := updateCaption id0 lang value app in
  map id (images (component app')) = map id (images (component app)) /\
  map url (images (component app')) = map url (images (component app)) /\
  map originalId (images (component app')) =
    map originalId (images (component app)) /\
  (forall k img,
      nth_error (images (component app)) k = Some img ->
      exists img',
        nth_error (images (component app')) k = Some img' /\
        (id img = id0 -> get_caption lang (caption img') = value) /\
        (id img <> id0 -> img' = img) /\
        (forall other, other <> lang ->
                       get_caption other (caption img') =
                       get_caption other (caption img))) /\
  ((forall img, In img (images (component app)) -> id img <> id0) ->
   app' = app) /\
  previewUrl (component app') = previewUrl (component app) /\
  objectURLs app' = objectURLs app.
Proof.
  intros app'. unfold app'. rewrite !updateCaption_images.
  split; [|split; [|split; [|split; [|split]]]].
  - rewrite map_map. apply map_ext. intros img.
    now destruct (String.eqb (id img) id0).
  - rewrite map_map. apply map_ext. intros img.
    now destruct (String.eqb (id img) id0).
  - rewrite map_map. apply map_ext. intros img.
    now destruct (String.eqb (id img) id0).
  - intros k img Hk. rewrite nth_error_map, Hk. cbn [option_map].
    eexists. split; [reflexivity|].
    destruct (String.eqb (id img) id0) eqn:E.
    + apply String.eqb_eq in E. split; [|split].
      * intros _. now destruct lang.
      * intros Hne. contradiction.
      * intros other Ho. destruct other, lang; cbn; congruence.
    + apply String.eqb_neq in E. split; [|split].
      * intros Hid. contradiction.
      * reflexivity.
      * reflexivity.
  - intros Hno. unfold updateCaption.
    assert (E : map (fun img =>
                       if String.eqb (id img) id0 then
                         mkImageItem (id img) (url img)
                           (set_caption lang value (caption img))
                           (originalId img)
                       else img) (images (component app))
                = images (component app)).
    { rewrite <- (map_id (images (component app))) at 2.
      apply map_ext_in. intros img Hin.
      pose proof (Hno img Hin) as Hne. apply String.eqb_neq in Hne.
      now rewrite Hne. }
    rewrite E. destruct app as [st m u a d i]. destruct st. reflexivity.
  - split; reflexivity.
Qed.

(** X17.  Caption edits compose as writes to separate cells: of two
    edits of the same key of the same id the later one wins, and edits
    of the two keys commute, for the same id or different ones. *)
Theorem updateCaption_composes (id0 id1 : string) (v1 v2 : string)
    (lang : Lang) (app : App) :
  updateCaption id0 lang v2 (updateCaption id0 lang v1 app) =
    updateCaption id0 lang v2 app /\
  updateCaption id0 LangZh v1 (updateCaption id1 LangJp v2 app) =
    updateCaption id1 LangJp v2 (updateCaption id0 LangZh v1 app).
Proof.
  split.
  - unfold updateCaption, with_component. cbn. f_equal. unfold setImages.
    cbn. f_equal. rewrite map_map. apply map_ext. intros img.
    destruct (String.eqb (id img) id0) eqn:E; cbn; rewrite E;
      [|reflexivity].
    now destruct lang.
  - unfold updateCaption, with_component. cbn. f_equal. unfold setImages.
    cbn. f_equal. rewrite !map_map. apply map_ext. intros img.
    destruct (String.eqb (id img) id0) eqn:E0,
             (String.eqb (id img) id1) eqn:E1; cbn; rewrite ?E0, ?E1;
      reflexivity.
Qed.

(** ** Uploads *)


(** ** Copies *)

(** X19.  A copy keeps the URL and the captions of what it copies, and a
    copy of a copy carries the same origin as the copy: the origin names
    the first item of the chain, whose id must be non-empty. *)
Theorem copy_of_copy_keeps_origin (sup : Supply) (o : ImageItem) (app : App) :
  truthy (id o) = true ->
  exists c1 c2,
    images (component (copyImage sup o app)) =
      images (component app) ++ [c1] /\
    images (component (copyImage sup c1 (copyImage sup o app))) =
      images (component app) ++ [c1; c2] /\
    originalId c1 = Some (or_string (originalId o) (id o)) /\
    originalId c2 = originalId c1 /\
    url c1 = url o /\ url c2 = url o /\
    caption c1 = caption o /\ caption c2 = caption o.
Proof.
  intros Hid. eexists. eexists.
  split; [apply copyImage_images|].
  split; [rewrite !copyImage_images, <- app_assoc; reflexivity|].
  cbn [originalId url caption zh jp].
  split; [reflexivity|]. split.
  - f_equal.
    assert (Ht : truthy (or_string (originalId o) (id o)) = true).
    { unfold or_string. destruct (originalId o) as [s|]; [|exact Hid].
      destruct (truthy s) eqn:E; [exact E|exact Hid]. }
    unfold or_string at 1. now rewrite Ht.
  - repeat split; now destruct (caption o).
Qed.

Lemma copy_of_copy_keeps_origin_witness :
  exists c1 c2,
    images (component (copyImage sample_supply
                         (sample_item "blob:first" "a" "b") sample_app)) =
      two_items ++ [c1] /\
    images (component (copyImage sample_supply c1
                         (copyImage sample_supply
                            (sample_item "blob:first" "a" "b") sample_app))) =
      two_items ++ [c1; c2] /\
    originalId c1 = Some "blob:first"%string /\
    originalId c2 = originalId c1 /\
    url c1 = "blob:first"%string /\ url c2 = "blob:first"%string /\
    caption c1 = mkCaption "a" "b" /\ caption c2 = mkCaption "a" "b".
Proof.
  apply (copy_of_copy_keeps_origin sample_supply
           (sample_item "blob:first" "a" "b") sample_app).
  reflexivity.
Defined.

Lemma updateCaption_sets_caption_witness :
  exists img',
    nth_error (images (component (updateCaption "blob:second" LangJp "jp"
                                                sample_app))) 1 = Some img' /\
    get_caption LangJp (caption img') = "jp"%string /\
    get_caption LangZh (caption img') = "zh"%string /\
    updateCaption "nobody" LangJp "jp" sample_app = sample_app.
Proof.
  destruct (updateCaption_sets_caption "blob:second" LangJp "jp" sample_app)
    as (_ & _ & _ & Hk & _).
  destruct (Hk 1%nat (sample_item "blob:second" "zh" EmptyString) eq_refl)
    as (img' & Hn & Hset & _ & Hother).
  exists img'. split; [exact Hn|]. split; [now apply Hset|].
  split; [rewrite (Hother LangZh); [reflexivity|discriminate]|].
  destruct (updateCaption_sets_caption "nobody" LangJp "jp" sample_app)
    as (_ & _ & _ & _ & Hno & _).
  apply Hno. intros img [<-|[<-|[]]]; discriminate.
Defined.

(** ** The preview, the download and the list *)

(** X20.  After a removal or a copy there is no preview left: none is
    shown, the download button is gone, and [downloadImage] does
    nothing. *)
Theorem list_change_clears_preview (sup : Supply) (app app1 : App) :
  (exists id0, app1 = removeImage id0 app) \/
  (exists o, app1 = copyImage sup o app) ->
  previewUrl (component app1) = EmptyUrl /\
  download_button (component app1) = false /\
  (forall time, downloadImage time app1 = app1) /\
  (forall u, preview_panel (component app1) <> PreviewImage u).
Proof.
  intros H.
  assert (Hp : previewUrl (component app1) = EmptyUrl)
    by (destruct H as [[id0 ->]|[o ->]]; reflexivity).
  split; [exact Hp|]. split; [|split].
  - unfold download_button. rewrite Hp. apply andb_false_r.
  - intros time. unfold downloadImage. now rewrite Hp.
  - intros u. unfold preview_panel. rewrite Hp. cbn.
    destruct (Nat.eqb _ 0); [discriminate|].
    destruct (isGenerating (component app1)); discriminate.
Qed.

Lemma list_change_clears_preview_witness :
  previewUrl (component (removeImage "blob:first" sample_app)) = EmptyUrl /\
  download_button (component (removeImage "blob:first" sample_app)) = false /\
  (forall time, downloadImage time (removeImage "blob:first" sample_app) =
                removeImage "blob:first" sample_app) /\
  (forall u, preview_panel (component (removeImage "blob:first" sample_app))
             <> PreviewImage u).
Proof.
  apply (list_change_clears_preview sample_supply sample_app).
  left. exists "blob:first"%string. reflexivity.
Defined.



(** X22.  The timer callback of a completed render publishes that
    render, whatever happened to the list in between: if an item is
    removed before the callback runs, the removal clears the preview and
    the callback then sets it to the PNG drawn from the list as it was,
    one band for each item of the old list. *)
Theorem readback_after_removal (env : Env) (app : App)
    (loadedImages : list FabricImage) (id0 : string) :
  images (component app) <> [] ->
  canvasRef (component app) <> None ->
  Promise_all (map (fun img => loadFabricImage env (url img))
                   (images (component app))) = inr loadedImages ->
  (forall img, In img loadedImages -> exists c, clone env img = inr c) ->
  exists L bands st' h st'',
    draw_loop env L 0 0 (combine loadedImages (images (component app)))
      = (bands, Done tt) /\
    List.length bands = List.length (images (component app)) /\
    generatePreview env (component app) = Some (st', Resolved) /\
    In (mkTimer 100 (ReadbackPreview h)) (timers st') /\
    previewUrl (component (removeImage id0 (with_component st' app)))
      = EmptyUrl /\
    run_callback (ReadbackPreview h)
      (component (removeImage id0 (with_component st' app))) = Some st'' /\
    images st'' =
      filter (fun img => negb (String.eqb (id img) id0))
             (images (component app)) /\
    previewUrl st'' =
      PngDataUrl 800 (totalHeight L) "white" (flat_map drawn bands).
Proof.
  intros Hne Hcv HP Hc.
  destruct (generatePreview_success env (component app) loadedImages
              Hne Hcv HP Hc)
    as (L & bands & st' & h & cv & HD & Hlen & HG & Hi & Hh & Hhd & Hr & Ht
        & _ & _ & Hcv').
  assert (Hn : nth_error (heap st') h = Some cv)
    by (rewrite Hh, Hhd; apply nth_error_fresh).
  exists L, bands, st', h. eexists.
  split; [exact HD|]. split; [exact Hlen|]. split; [exact HG|].
  split; [rewrite Ht; apply in_or_app; right; now left|].
  split; [reflexivity|].
  unfold run_callback.
  cbn [removeImage component with_component heap setPreviewUrl setImages].
  rewrite Hn. split; [reflexivity|].
  cbn [images setIsGenerating setPreviewUrl setImages previewUrl].
  rewrite Hi, Hcv'. split; reflexivity.
Qed.

Lemma readback_after_removal_witness :
  exists L bands st' h st'',
    draw_loop sample_env L 0 0
      (combine [first_image; second_image] (images (component sample_app)))
      = (bands, Done tt) /\
    List.length bands = 2%nat /\
    generatePreview sample_env (component sample_app) = Some (st', Resolved) /\
    In (mkTimer 100 (ReadbackPreview h)) (timers st') /\
    previewUrl (component (removeImage "blob:second"
                             (with_component st' sample_app))) = EmptyUrl /\
    run_callback (ReadbackPreview h)
      (component (removeImage "blob:second" (with_component st' sample_app)))
      = Some st'' /\
    images st'' =
      filter (fun img => negb (String.eqb (id img) "blob:second"))
             (images (component sample_app)) /\
    previewUrl st'' =
      PngDataUrl 800 (totalHeight L) "white" (flat_map drawn bands).
Proof.
  apply (readback_after_removal sample_env sample_app
           [first_image; second_image] "blob:second").
  - discriminate.
  - discriminate.
  - reflexivity.
  - intros img _. exists img. reflexivity.
Defined.

(** ** The captions of the first band *)

(** X23.  The captions of the first band are not kept inside it: a
    layer of the primary caption starts above the canvas exactly when
    [firstImageHeight] is below its offset, 65 with a secondary caption
    and 55 without, and the secondary caption exactly when it is
    below 25. *)
Theorem first_band_caption_overflow (env : Env) (L : Layout)
    (todo : list (FabricImage * ImageItem)) (bands : list Band) (r : M unit)
    (b : Band) :
  draw_loop env L 0 0 todo = (bands, r) ->
  nth_error bands 0 = Some b ->
  forall t, In t (texts_of (drawn b)) ->
    (role t = Glow \/ role t = WhiteFill ->
     (text_top t < 0 <->
      firstImageHeight L <
        (if truthy (jp (caption (item b))) then 65 else 55))) /\
    (role t = Secondary ->
     (text_top t < 0 <-> firstImageHeight L < 25)).
Proof.
  intros HD Hb t Ht.
  destruct (band_texts env L todo bands r 0 b HD Hb)
    as (io & bottom & Hbot & Hh & Hd).
  rewrite Hd, texts_of_band in Ht.
  rewrite (draw_loop_first _ _ _ _ _ _ _ _ HD Hb), Hh in Hbot.
  unfold band_height in Hbot. cbn [Nat.eqb] in Hbot.
  apply in_app_or in Ht. destruct Ht as [Ht|Ht].
  - destruct (in_zh_layers _ _ _ Ht) as (_ & _ & _ & _ & ->). split.
    + intros _. destruct (truthy (jp (caption (item b)))); split; intros H; lra.
    + intros Hr. destruct (in_zh_layers _ _ _ Ht) as (Hs & _).
      rewrite Hr in Hs. destruct Hs; discriminate.
  - destruct (in_jp_layers _ _ _ Ht) as (Hs & _ & _ & _ & ->). split.
    + intros Hr. rewrite Hs in Hr. destruct Hr; discriminate.
    + intros _. split; intros H; lra.
Qed.

Lemma first_band_caption_overflow_witness :
  exists bands r b t,
    draw_loop sample_env (mkLayout 40 80 120) 0 0
      [(mkFabricImage "blob:flat" (Some 1000) (Some 50),
        sample_item "blob:flat" "zh" EmptyString)] = (bands, r) /\
    nth_error bands 0 = Some b /\
    In t (texts_of (drawn b)) /\
    role t = WhiteFill /\
    (text_top t < 0 <-> 40 < 55).
Proof.
  destruct (draw_loop sample_env (mkLayout 40 80 120) 0 0
              [(mkFabricImage "blob:flat" (Some 1000) (Some 50),
                sample_item "blob:flat" "zh" EmptyString)])
    as [bands r] eqn:HD.
  assert (Hb : exists b t, nth_error bands 0 = Some b /\
                           In t (texts_of (drawn b)) /\
                           role t = WhiteFill /\
                           caption (item b) = mkCaption "zh" EmptyString).
  { pose proof HD as HD'. vm_compute in HD'. inversion HD'.
    eexists. eexists. split; [reflexivity|].
    split; [right; left; reflexivity|]. split; reflexivity. }
  destruct Hb as (b & t & Hb & Ht & Hr & Hc).
  destruct (first_band_caption_overflow sample_env _ _ _ _ b HD Hb t Ht)
    as [Hp _].
  exists bands, r, b, t.
  split; [reflexivity|]. split; [exact Hb|]. split; [exact Ht|].
  split; [exact Hr|].
  rewrite Hc in Hp. apply Hp. right. exact Hr.
Defined.
